(** * Stroke prediction analysis: the data-processing pipeline

    A shallow embedding of [scripts/data_processing.py]: the cleaner
    ([clean_stroke_data]), the categorizers ([get_age_groups],
    [get_bmi_category], [get_glucose_category]) and the aggregator
    ([get_stroke_stats], [get_stats_by_column]).

    Conventions of the embedding.
    - A data frame is the list of its rows, in index order.
    - A number held in a column is a rational: measurements are finite
      decimals.  The missing marker of pandas (NaN) is a constructor of
      its own.
    - The rate of a summary has two readings.  [rate] reads the binary64
      number that the script prints as the decimal it stands for: the
      exact quotient, rounded to the nearest hundredth.  [binary64_rate]
      follows the script operation by operation, each one rounded to
      binary64; [get_stats_by_column_binary64] is the summary with that
      rate.  The two name the same hundredth unless the exact rate,
      counted in hundredths, is within [10 ^ -11] of a tie between two of
      them.
    - The pandas operations used by the script ([to_numeric], [median],
      [fillna], [cut], [groupby], [round]) are written out as functions
      with the behaviour the script relies on.  Where that behaviour is a
      default that changed between pandas releases (the categories that
      [groupby] lists for a categorical column), it is a parameter. *)

From Stdlib Require Import List Bool Arith ZArith QArith Qround Qabs Qpower String Ascii.
From Stdlib Require Import Lia Lqa Permutation Sorted.
Import ListNotations.

Local Open Scope string_scope.
Local Open Scope Z_scope.

(** ** Outcomes of a stage *)

(** The error kinds of the design, and the one Python raises when a string
    is compared with a number. *)
Inductive error : Type :=
| InvalidInput
| MissingField
| DegenerateGroup
| TypeError.

Inductive result (A : Type) : Type :=
| Ok (a : A)
| Fail (e : error).
Arguments Ok {A} a.
Arguments Fail {A} e.

Definition bind {A B : Type} (m : result A) (k : A -> result B) : result B :=
  match m with
  | Ok a => k a
  | Fail e => Fail e
  end.

Notation "x <- m ;; k" := (bind m (fun x => k))
  (at level 61, m at next level, right associativity).

Fixpoint mapM {A B : Type} (f : A -> result B) (l : list A) : result (list B) :=
  match l with
  | [] => Ok []
  | a :: l' => b <- f a ;; bs <- mapM f l' ;; Ok (b :: bs)
  end.

(** ** Cells and rows *)

(** A cell of the [bmi] column: a number, the missing marker, or a text
    token that the loader could not read as a number. *)
Inductive cell : Type :=
| Num (x : Q)
| NA
| Str (s : string).

(** A value computed by numpy arithmetic. *)
Inductive float : Type :=
| Fin (q : Q)
| Inf (negative : bool)
| NaN.

(** One row of the data set, with the columns of the input file. *)
Record patient : Type := mkPatient {
  id : Z;
  gender : string;
  age : option Q;
  hypertension : Z;
  heart_disease : Z;
  ever_married : string;
  work_type : string;
  Residence_type : string;
  avg_glucose_level : option Q;
  bmi : cell;
  smoking_status : string;
  stroke : Z
}.

(** [df_clean['bmi'] = ...]: assignment to the [bmi] column of one row. *)
Definition set_bmi (r : patient) (c : cell) : patient :=
  {| id := id r; gender := gender r; age := age r;
     hypertension := hypertension r; heart_disease := heart_disease r;
     ever_married := ever_married r; work_type := work_type r;
     Residence_type := Residence_type r;
     avg_glucose_level := avg_glucose_level r;
     bmi := c;
     smoking_status := smoking_status r; stroke := stroke r |}.

(** Every column of a row but [bmi]. *)
Definition other_fields (r : patient)
  : Z * string * option Q * Z * Z * string * string * string * option Q
    * string * Z :=
  (id r, gender r, age r, hypertension r, heart_disease r, ever_married r,
   work_type r, Residence_type r, avg_glucose_level r, smoking_status r,
   stroke r).

(** ** Comparisons and sorting of rationals *)

Definition Qltb (x y : Q) : bool := negb (Qle_bool y x).

Fixpoint insert_sorted (x : Q) (l : list Q) : list Q :=
  match l with
  | [] => [x]
  | y :: l' => if Qle_bool x y then x :: l else y :: insert_sorted x l'
  end.

Fixpoint sort_values (l : list Q) : list Q :=
  match l with
  | [] => []
  | x :: l' => insert_sorted x (sort_values l')
  end.

(** How many values of a list are at most, and at least, a bound. *)
Definition count_le (m : Q) (l : list Q) : nat :=
  List.length (filter (fun x => Qle_bool x m) l).

Definition count_ge (m : Q) (l : list Q) : nat :=
  List.length (filter (fun x => Qle_bool m x) l).

(** ** The cleaner *)

Section Cleaner.

(** The numeric parser of [pd.to_numeric] on one token: [None] when the
    token is not a number. *)
Variable parse : string -> option Q.

(** [pd.to_numeric(column, errors='coerce')] on one cell. *)
Definition to_numeric (c : cell) : cell :=
  match c with
  | Str s => match parse s with
             | Some x => Num x
             | None => NA
             end
  | _ => c
  end.

(** The numbers of a column, the missing cells skipped. *)
Fixpoint numbers (col : list cell) : list Q :=
  match col with
  | [] => []
  | Num x :: col' => x :: numbers col'
  | _ :: col' => numbers col'
  end.

(** [Series.median()]: the middle of the sorted non-missing values, the
    mean of the two middle ones when their number is even, and the missing
    marker when there is none. *)
Definition median (col : list cell) : cell :=
  let part := sort_values (numbers col) in
  let n := List.length part in
  match n with
  | O => NA
  | _ =>
    if Nat.even n
    then Num ((nth (n / 2 - 1) part 0%Q + nth (n / 2) part 0%Q) / 2)%Q
    else Num (nth (n / 2) part 0%Q)
  end.

(** [Series.fillna(value)] on one cell. *)
Definition fillna (value : cell) (c : cell) : cell :=
  match c with
  | NA => value
  | _ => c
  end.

(** [clean_stroke_data(df)]. *)
Definition clean_stroke_data (df : list patient) : list patient :=
  let df_clean := map (fun r => set_bmi r (to_numeric (bmi r))) df in
  let bmi_median := median (map bmi df_clean) in
  let df_clean :=
    map (fun r => set_bmi r (fillna bmi_median (bmi r))) df_clean in
  filter (fun r => negb (gender r =? "Other")%string) df_clean.

(** The cleaner as a stage that may fail: [clean_stroke_data] has no
    [raise], and [to_numeric] is called with [errors='coerce'], so the
    stage returns on every table. *)
Definition clean (df : list patient) : result (list patient) :=
  Ok (clean_stroke_data df).

End Cleaner.

(** ** The categorizers *)

(** [numpy.searchsorted(bins, x, side='left')] on increasing [bins]: the
    number of leading bins strictly below [x]. *)
Fixpoint searchsorted (bins : list Q) (x : Q) : nat :=
  match bins with
  | [] => O
  | b :: bins' => if Qltb b x then S (searchsorted bins' x) else O
  end.

(** [pd.cut(x, bins, labels=labels, include_lowest=...)] on one value, with
    the default [right=True]: the bin index comes from [searchsorted], a
    value equal to the first edge is moved into the first bin when
    [include_lowest] is set, and a missing value or an index outside the
    bins gives the missing marker. *)
Definition cut (bins : list Q) (labels : list string) (include_lowest : bool)
    (x : option Q) : option string :=
  match x with
  | None => None
  | Some v =>
    let ids := searchsorted bins v in
    let ids :=
      if include_lowest && Qeq_bool v (hd 0%Q bins) then 1%nat else ids in
    if (ids =? List.length bins)%nat || (ids =? 0)%nat
    then None
    else nth_error labels (ids - 1)
  end.

Definition age_bins : list Q := [0; 18; 30; 45; 60; 75; 100]%Q.
Definition age_labels : list string :=
  ["0-18"; "19-30"; "31-45"; "46-60"; "61-75"; "75+"].

(** The [age_group] cell computed from an [age] cell. *)
Definition age_group (a : option Q) : option string :=
  cut age_bins age_labels true a.

(** [get_age_groups(df)]: each row with its new [age_group] column. *)
Definition get_age_groups (df : list patient) : list (patient * option string) :=
  map (fun r => (r, age_group (age r))) df.

(** [bmi < y] as Python evaluates it on a cell: false on the missing
    marker, a [TypeError] on text. *)
Definition cell_lt (c : cell) (y : Q) : result bool :=
  match c with
  | Num x => Ok (Qltb x y)
  | NA => Ok false
  | Str _ => Fail TypeError
  end.

(** The inner [categorize_bmi(bmi)]. *)
Definition categorize_bmi (bmi : cell) : result string :=
  b1 <- cell_lt bmi (37 # 2) ;;
  if b1 : bool then Ok "Underweight" else
  (b2 <- cell_lt bmi 25 ;;
   if b2 : bool then Ok "Normal" else
   (b3 <- cell_lt bmi 30 ;;
    if b3 : bool then Ok "Overweight" else Ok "Obese")).

(** [get_bmi_category(df)]: each row with its new [bmi_category] column. *)
Definition get_bmi_category (df : list patient) : result (list (patient * string)) :=
  mapM (fun r => c <- categorize_bmi (bmi r) ;; Ok (r, c)) df.

(** [glucose < y] on a numeric cell: false on the missing marker. *)
Definition num_lt (g : option Q) (y : Q) : bool :=
  match g with
  | Some x => Qltb x y
  | None => false
  end.

(** The inner [categorize_glucose(glucose)]. *)
Definition categorize_glucose (glucose : option Q) : string :=
  if num_lt glucose 100 then "Normal"
  else if num_lt glucose 126 then "Pre-diabetic"
  else "Diabetic".

(** [get_glucose_category(df)]. *)
Definition get_glucose_category (df : list patient) : list (patient * string) :=
  map (fun r => (r, categorize_glucose (avg_glucose_level r))) df.

(** ** Arithmetic of the rates *)

(** [a / b] on two integer counts, as numpy divides: a zero divisor gives
    NaN for a zero dividend and an infinity otherwise. *)
Definition true_divide (a b : Z) : float :=
  if b =? 0
  then (if a =? 0 then NaN else Inf (a <? 0))
  else Fin (inject_Z a / inject_Z b).

(** [x * 100]. *)
Definition times100 (x : float) : float :=
  match x with
  | Fin q => Fin (q * 100)
  | _ => x
  end.

(** [numpy.rint]: the nearest integer, a tie going to the even one. *)
Definition rint (q : Q) : Z :=
  let f := Qfloor q in
  match (q - inject_Z f ?= 1 # 2)%Q with
  | Lt => f
  | Gt => f + 1
  | Eq => if Z.even f then f else f + 1
  end.

(** [round(x, decimals)] on a numpy value: scale by the power of ten,
    [rint], scale back. *)
Definition np_round (x : float) (decimals : nat) : float :=
  match x with
  | Fin q =>
    let factor := inject_Z (10 ^ Z.of_nat decimals) in
    Fin (inject_Z (rint (q * factor)) / factor)
  | _ => x
  end.

(** [round(stroke_count / total_count * 100, 2)], read as a decimal: the
    exact quotient, rounded to the nearest hundredth.  The number that
    the script computes is [binary64_rate] below. *)
Definition rate (stroke_count total_count : Z) : float :=
  np_round (times100 (true_divide stroke_count total_count)) 2.

(** ** The rate in binary64 *)

(** The binade of a positive rational: the exponent [e] with
    [2 ^ e <= q < 2 ^ (e + 1)]. *)
Definition binade (q : Q) : Z :=
  let e := Z.log2 (Qnum q) - Z.log2 (Zpos (Qden q)) in
  if Qle_bool ((2 : Q) ^ e)%Q q then e else e - 1.

(** Rounding to the nearest binary64 number: 53 significant bits, a tie
    going to the even mantissa.  The range of the exponent is not
    modelled: the quotients of counts are far from its limits. *)
Definition round64 (q : Q) : Q :=
  match Qnum q with
  | Z0 => 0%Q
  | Zpos _ =>
    let ulp := ((2 : Q) ^ (binade q - 52))%Q in
    (inject_Z (rint (q / ulp)) * ulp)%Q
  | Zneg _ =>
    let ulp := ((2 : Q) ^ (binade (- q) - 52))%Q in
    (- (inject_Z (rint (- q / ulp)) * ulp))%Q
  end.

(** The binary64 number that holds the exact result of an operation. *)
Definition to_binary64 (x : float) : float :=
  match x with
  | Fin q => Fin (round64 q)
  | _ => x
  end.

(** [a / b] and [x * 100] as numpy computes them, each operation rounded
    to binary64 (the counts themselves, below [2 ^ 53], are exact). *)
Definition true_divide64 (a b : Z) : float := to_binary64 (true_divide a b).
Definition times100_64 (x : float) : float := to_binary64 (times100 x).

(** [round(x, decimals)] in binary64: the product by the power of ten is
    rounded, then [rint], then the quotient is rounded. *)
Definition np_round64 (x : float) (decimals : nat) : float :=
  match x with
  | Fin q =>
    let factor := inject_Z (10 ^ Z.of_nat decimals) in
    Fin (round64 (inject_Z (rint (round64 (q * factor))) / factor)%Q)
  | _ => x
  end.

(** [round(stroke_count / total_count * 100, 2)] as the script computes
    it, in binary64. *)
Definition binary64_rate (stroke_count total_count : Z) : float :=
  np_round64 (times100_64 (true_divide64 stroke_count total_count)) 2.

(** ** The aggregator *)

Record stroke_stats : Type := mkStats {
  total_patients : Z;
  stroke_cases : Z;
  no_stroke_cases : Z;
  stats_stroke_rate : float
}.

Record AggregationRow (K : Type) : Type := mkRow {
  group_value : K;
  stroke_count : Z;
  total_count : Z;
  no_stroke_count : Z;
  stroke_rate : float
}.
Arguments mkRow {K}.
Arguments group_value {K}.
Arguments stroke_count {K}.
Arguments total_count {K}.
Arguments no_stroke_count {K}.
Arguments stroke_rate {K}.

Section Aggregator.

(** The rows of the frame and the values of the grouping column.  A
    column is read through an accessor; the grouping column may hold the
    missing marker, read as [None]. *)
Context {A K : Type}.
Variable key_eq_dec : forall x y : K, {x = y} + {x <> y}.
Variable key_leb : K -> K -> bool.
Variable stroke_of : A -> Z.
Variable column : A -> option K.

(** The categories that [groupby] lists whether or not a row holds them:
    none for a column of plain values; for a categorical column (the
    [age_group] made by [pd.cut]) its categories when [groupby] runs with
    [observed=False], and none with [observed=True].  The script leaves
    the choice to the default of the pandas release in use. *)
Variable listed : list K.

(** [Series.sum()] of the [stroke] column. *)
Definition sum_stroke (df : list A) : Z :=
  fold_right (fun r acc => stroke_of r + acc) 0 df.

(** [get_stroke_stats(df)]. *)
Definition get_stroke_stats (df : list A) : stroke_stats :=
  let total := Z.of_nat (List.length df) in
  let cases := sum_stroke df in
  let no_stroke := total - cases in
  {| total_patients := total;
     stroke_cases := cases;
     no_stroke_cases := no_stroke;
     stats_stroke_rate := rate cases total |}.

(** The non-missing values of the grouping column, in row order. *)
Fixpoint observed_keys (df : list A) : list K :=
  match df with
  | [] => []
  | r :: df' =>
    match column r with
    | Some k => k :: observed_keys df'
    | None => observed_keys df'
    end
  end.

Fixpoint insert_key (k : K) (l : list K) : list K :=
  match l with
  | [] => [k]
  | k' :: l' => if key_leb k k' then k :: l else k' :: insert_key k l'
  end.

Fixpoint sort_keys (l : list K) : list K :=
  match l with
  | [] => []
  | k :: l' => insert_key k (sort_keys l')
  end.

(** The group keys of [df.groupby(column)]: the distinct non-missing
    values of the column together with the listed categories, sorted (a
    row with a missing value in the column is in no group). *)
Definition group_keys (df : list A) : list K :=
  sort_keys (nodup key_eq_dec (observed_keys df ++ listed)).

(** The rows of one group. *)
Definition in_group (k : K) (r : A) : bool :=
  match column r with
  | Some k' => if key_eq_dec k' k then true else false
  | None => false
  end.

Definition group (k : K) (df : list A) : list A := filter (in_group k) df.

(** [df.groupby(column).agg({'stroke': ['sum', 'count']}).reset_index()]:
    one line per group key, with the sum and the count of [stroke]. *)
Definition groupby_agg (df : list A) : list (K * Z * Z) :=
  map (fun k => (k, sum_stroke (group k df), Z.of_nat (List.length (group k df))))
      (group_keys df).

(** The two derived columns of one line of the grouped frame. *)
Definition derive (g : K * Z * Z) : AggregationRow K :=
  let '(k, stroke_count, total_count) := g in
  {| group_value := k;
     stroke_count := stroke_count;
     total_count := total_count;
     no_stroke_count := total_count - stroke_count;
     stroke_rate := rate stroke_count total_count |}.

(** [get_stats_by_column(df, column)]. *)
Definition get_stats_by_column (df : list A) : list (AggregationRow K) :=
  map derive (groupby_agg df).

(** The two derived columns, the rate computed in binary64. *)
Definition derive_binary64 (g : K * Z * Z) : AggregationRow K :=
  let '(k, stroke_count, total_count) := g in
  {| group_value := k;
     stroke_count := stroke_count;
     total_count := total_count;
     no_stroke_count := total_count - stroke_count;
     stroke_rate := binary64_rate stroke_count total_count |}.

(** [get_stats_by_column(df, column)] with the rate that the script
    computes. *)
Definition get_stats_by_column_binary64 (df : list A) : list (AggregationRow K) :=
  map derive_binary64 (groupby_agg df).

(** The rows that hold a value in the grouping column. *)
Definition has_key (r : A) : bool :=
  match column r with
  | Some _ => true
  | None => false
  end.

(** The sum of a weight over rows. *)
Definition sum_by (w : A -> Z) (l : list A) : Z :=
  fold_right (fun r acc => w r + acc) 0 l.

(** Whether the grouping value of a row is one of [ks]. *)
Definition key_among (ks : list K) (r : A) : bool :=
  match column r with
  | Some k => if in_dec key_eq_dec k ks then true else false
  | None => false
  end.

(** The sum of a weight over the groups of the keys [ks]. *)
Definition sum_groups (w : A -> Z) (ks : list K) (df : list A) : Z :=
  fold_right Z.add 0 (map (fun k => sum_by w (group k df)) ks).

(** The aggregator as a stage that may fail: [get_stats_by_column] has no
    [raise], and a division by zero in numpy gives NaN. *)
Definition aggregate (df : list A) : result (list (AggregationRow K)) :=
  Ok (get_stats_by_column df).

End Aggregator.

(** The sum of a column of counts. *)
Definition sum_Z (l : list Z) : Z := fold_right Z.add 0 l.

(** ** A parser and tables for the examples *)

Definition digit_of (c : ascii) : option Z :=
  let n := Z.of_nat (nat_of_ascii c) in
  if (48 <=? n) && (n <=? 57) then Some (n - 48) else None.

(** Reads an unsigned decimal literal: digits with at most one point. *)
Fixpoint parse_digits (s : string) (acc : Z) (scale : positive)
    (frac seen : bool) : option Q :=
  match s with
  | EmptyString => if seen then Some (acc # scale) else None
  | String c s' =>
    if (c =? ".")%char
    then (if frac then None else parse_digits s' acc scale true seen)
    else match digit_of c with
         | Some d =>
           parse_digits s' (10 * acc + d)
                        (if frac then scale * 10 else scale)%positive frac true
         | None => None
         end
  end.

(** The plain decimal literals, with an optional minus sign; any other
    token is not a number. *)
Definition parse_decimal (s : string) : option Q :=
  match s with
  | String "-" s' => option_map Qopp (parse_digits s' 0 1 false false)
  | _ => parse_digits s 0 1 false false
  end.

(** A row with the given gender, age, [bmi] cell and outcome, the other
    columns fixed. *)
Definition row_of (i : Z) (g : string) (a : Q) (b : cell) (s : Z) : patient :=
  {| id := i; gender := g; age := Some a; hypertension := 0;
     heart_disease := 0; ever_married := "Yes"; work_type := "Private";
     Residence_type := "Urban"; avg_glucose_level := Some 90%Q;
     bmi := b; smoking_status := "never smoked"; stroke := s |}.

(** Five rows, one of them with a missing [bmi]. *)
Definition five_rows : list patient :=
  [ row_of 1 "Male" 10 (Num 17) 0;
    row_of 2 "Female" 25 (Num 22) 1;
    row_of 3 "Male" 50 (Num 28) 0;
    row_of 4 "Female" 70 (Num 33) 1;
    row_of 5 "Male" 90 NA 0 ].

(** A table whose [bmi] column holds no number. *)
Definition all_missing : list patient :=
  [ row_of 1 "Male" 40 NA 0;
    row_of 2 "Female" 61 (Str "N/A") 1 ].

(** A table with a [bmi] token that is neither a number nor the sentinel
    ['N/A'] of the data set. *)
Definition garbage_bmi : list patient :=
  [ row_of 1 "Male" 40 (Str "abc") 0;
    row_of 2 "Female" 50 (Num 20) 1 ].

(** A hundred rows of one gender, five of them with a positive outcome. *)
Definition hundred_rows : list patient :=
  repeat (row_of 1 "Male" 50 (Num 25) 1) 5
  ++ repeat (row_of 2 "Male" 50 (Num 25) 0) 95.

(** A hundred and sixty rows of one gender, twenty-three of them with a
    positive outcome; thirty-two rows, three of them with a positive
    outcome.  The exact rate of each is a tie between two hundredths. *)
Definition tie_rows_160 : list patient :=
  repeat (row_of 1 "Male" 50 (Num 25) 1) 23
  ++ repeat (row_of 2 "Male" 50 (Num 25) 0) 137.

Definition tie_rows_32 : list patient :=
  repeat (row_of 1 "Male" 50 (Num 25) 1) 3
  ++ repeat (row_of 2 "Male" 50 (Num 25) 0) 29.

(** Two rows, the first with an age above the last edge of the bins. *)
Definition out_of_range_age : list patient :=
  [ row_of 1 "Male" 150 (Num 20) 1;
    row_of 2 "Female" 50 (Num 22) 0 ].

(** The [gender] column as a grouping column, on a table in which every
    row holds a gender. *)
Definition by_gender (r : patient) : option string := Some (gender r).

(** [get_stats_by_column(df_export, 'age_group')] on the table returned by
    [get_age_groups], as [export_for_tableau] calls it. *)
Definition age_group_stats (listed : list string) (df : list patient)
  : list (AggregationRow string) :=
  get_stats_by_column string_dec String.leb (fun p => stroke (fst p)) snd
    listed (get_age_groups df).

(** ** Further tables for the examples *)

(** Three rows whose [bmi] column holds the sentinel as text. *)
Definition text_bmi : list patient :=
  [ row_of 1 "Male" 40 (Num 31) 1;
    row_of 2 "Female" 61 (Str "N/A") 0;
    row_of 3 "Other" 35 (Num 19) 0 ].

(** ** Text columns *)

(** A cell of a text column as [groupby] reads it.  The frames of the
    script come from [read_csv], which reads an empty field as the
    missing marker: a text cell is never the empty string, and the
    embedding writes the missing marker of a text column as the empty
    string. *)
Definition text_cell (s : string) : option string :=
  match s with
  | EmptyString => None
  | String _ _ => Some s
  end.

(** A row with the given [smoking_status]. *)
Definition set_smoking_status (r : patient) (s : string) : patient :=
  {| id := id r; gender := gender r; age := age r;
     hypertension := hypertension r; heart_disease := heart_disease r;
     ever_married := ever_married r; work_type := work_type r;
     Residence_type := Residence_type r;
     avg_glucose_level := avg_glucose_level r;
     bmi := bmi r;
     smoking_status := s; stroke := stroke r |}.

(** Three rows, the second with no [smoking_status]. *)
Definition missing_smoking : list patient :=
  [ set_smoking_status (row_of 1 "Male" 70 (Num 30) 1) "smokes";
    set_smoking_status (row_of 2 "Female" 40 (Num 22) 1) EmptyString;
    row_of 3 "Female" 81 (Num 27) 0 ].

(** ** The risk-factor summary *)

(** The grouping columns of the summaries.  [hypertension] and
    [heart_disease] are integer columns, which hold a value in every
    row; a text column may hold the missing marker. *)
Definition by_hypertension (r : patient) : option Z := Some (hypertension r).
Definition by_heart_disease (r : patient) : option Z := Some (heart_disease r).
Definition by_gender_cell (r : patient) : option string := text_cell (gender r).
Definition by_smoking_status (r : patient) : option string :=
  text_cell (smoking_status r).
Definition by_work_type (r : patient) : option string :=
  text_cell (work_type r).
Definition by_Residence_type (r : patient) : option string :=
  text_cell (Residence_type r).

(** The dictionary returned by [get_risk_factor_summary], one field per
    key. *)
Record risk_factor_summary : Type := mkSummary {
  summary_hypertension : list (AggregationRow Z);
  summary_heart_disease : list (AggregationRow Z);
  summary_smoking : list (AggregationRow string)
}.

(** [get_risk_factor_summary(df)]. *)
Definition get_risk_factor_summary (df : list patient) : risk_factor_summary :=
  let hypertension_stats :=
    get_stats_by_column Z.eq_dec Z.leb stroke by_hypertension [] df in
  let heart_stats :=
    get_stats_by_column Z.eq_dec Z.leb stroke by_heart_disease [] df in
  let smoking_stats :=
    get_stats_by_column string_dec String.leb stroke by_smoking_status [] df in
  {| summary_hypertension := hypertension_stats;
     summary_heart_disease := heart_stats;
     summary_smoking := smoking_stats |}.

(** ** The export *)

(** [get_bmi_category] and [get_glucose_category] on a frame that
    already carries derived columns: the column they read is given by an
    accessor. *)
Definition get_bmi_category_on {A : Type} (bmi_of : A -> cell) (df : list A)
  : result (list (A * string)) :=
  mapM (fun r => c <- categorize_bmi (bmi_of r) ;; Ok (r, c)) df.

Definition get_glucose_category_on {A : Type} (glucose_of : A -> option Q)
    (df : list A) : list (A * string) :=
  map (fun r => (r, categorize_glucose (glucose_of r))) df.

(** A row of [df_export]: the columns of the input, then [age_group],
    [bmi_category] and [glucose_category]. *)
Definition export_row : Type := patient * option string * string * string.

Definition patient_of (e : export_row) : patient := fst (fst (fst e)).
Definition age_group_of (e : export_row) : option string := snd (fst (fst e)).
Definition bmi_category_of (e : export_row) : string := snd (fst e).
Definition glucose_category_of (e : export_row) : string := snd e.

(** A table written by [to_csv]: the frame [df_export], or a summary
    grouped by a text column or by an integer column. *)
Inductive csv_table : Type :=
| ExportTable (rows : list export_row)
| TextSummary (rows : list (AggregationRow string))
| FlagSummary (rows : list (AggregationRow Z)).

(** What the export asks of the file system: whether [mkdir] succeeds,
    and whether the file of a given name can be written. *)
Record file_system : Type := mkFs {
  mkdir_ok : bool;
  to_csv_ok : string -> bool
}.

(** The exceptions that end the export: the one raised by a categorizer,
    or the [OSError] of [mkdir] or [to_csv]. *)
Inductive exception : Type :=
| Raised (e : error)
| OSError.

(** A step of the export: from the files written so far, in order, to
    the files written after the step, with its value or its exception. *)
Definition io (A : Type) : Type :=
  list (string * csv_table) -> list (string * csv_table) * (A + exception).

Definition io_bind {A B : Type} (m : io A) (k : A -> io B) : io B :=
  fun written =>
    match m written with
    | (written', inl a) => k a written'
    | (written', inr e) => (written', inr e)
    end.

Notation "x <~ m ;; k" := (io_bind m (fun x => k))
  (at level 61, m at next level, right associativity).
Notation "m ;>> k" := (io_bind m (fun _ => k))
  (at level 61, right associativity).

(** A stage that fails raises. *)
Definition of_result {A : Type} (m : result A) : io A :=
  fun written =>
    match m with
    | Ok a => (written, inl a)
    | Fail e => (written, inr (Raised e))
    end.

(** [output_dir.mkdir(exist_ok=True)]. *)
Definition mkdir (fs : file_system) : io unit :=
  fun written =>
    if mkdir_ok fs then (written, inl tt) else (written, inr OSError).

(** [table.to_csv(output_dir / name, index=False)]. *)
Definition to_csv (fs : file_system) (table : csv_table) (name : string)
  : io unit :=
  fun written =>
    if to_csv_ok fs name then ((written ++ [(name, table)])%list, inl tt)
    else (written, inr OSError).

(** [export_for_tableau(df)]: the directory, the three categorizers in
    turn, then the ten tables, each computed and written before the
    next.  The grouping by [age_group], a categorical column, takes the
    categories that [groupby] lists.  Nothing is undone when a step
    raises. *)
Definition export_for_tableau (fs : file_system) (listed : list string)
    (df : list patient) : io unit :=
  mkdir fs ;>>
  let df_export := get_age_groups df in
  df_export <~ of_result
    (get_bmi_category_on (fun p => bmi (fst p)) df_export) ;;
  let df_export : list export_row :=
    get_glucose_category_on (fun p => avg_glucose_level (fst (fst p)))
      df_export in
  let stroke_of_export := fun e : export_row => stroke (patient_of e) in
  to_csv fs (ExportTable df_export) "stroke_data_tableau.csv" ;>>
  let age_summary :=
    get_stats_by_column string_dec String.leb stroke_of_export age_group_of
      listed df_export in
  to_csv fs (TextSummary age_summary) "age_group_tableau.csv" ;>>
  let gender_summary :=
    get_stats_by_column string_dec String.leb stroke by_gender_cell [] df in
  to_csv fs (TextSummary gender_summary) "gender_tableau.csv" ;>>
  let hyper_summary :=
    get_stats_by_column Z.eq_dec Z.leb stroke by_hypertension [] df in
  to_csv fs (FlagSummary hyper_summary) "hypertension_tableau.csv" ;>>
  let heart_summary :=
    get_stats_by_column Z.eq_dec Z.leb stroke by_heart_disease [] df in
  to_csv fs (FlagSummary heart_summary) "heart_disease_tableau.csv" ;>>
  let smoking_summary :=
    get_stats_by_column string_dec String.leb stroke by_smoking_status [] df in
  to_csv fs (TextSummary smoking_summary) "smoking_tableau.csv" ;>>
  let work_summary :=
    get_stats_by_column string_dec String.leb stroke by_work_type [] df in
  to_csv fs (TextSummary work_summary) "work_type_tableau.csv" ;>>
  let residence_summary :=
    get_stats_by_column string_dec String.leb stroke by_Residence_type [] df in
  to_csv fs (TextSummary residence_summary) "residence_tableau.csv" ;>>
  let bmi_summary :=
    get_stats_by_column string_dec String.leb stroke_of_export
      (fun e => Some (bmi_category_of e)) [] df_export in
  to_csv fs (TextSummary bmi_summary) "bmi_category_tableau.csv" ;>>
  let glucose_summary :=
    get_stats_by_column string_dec String.leb stroke_of_export
      (fun e => Some (glucose_category_of e)) [] df_export in
  to_csv fs (TextSummary glucose_summary) "glucose_category_tableau.csv".

(** The names of the files, in the order of the [to_csv] calls. *)
Definition tableau_file_names : list string :=
  [ "stroke_data_tableau.csv"; "age_group_tableau.csv";
    "gender_tableau.csv"; "hypertension_tableau.csv";
    "heart_disease_tableau.csv"; "smoking_tableau.csv";
    "work_type_tableau.csv"; "residence_tableau.csv";
    "bmi_category_tableau.csv"; "glucose_category_tableau.csv" ].

(** The ten files of an export that ran to its end, from the frame that
    [get_bmi_category] returned. *)
Definition exported_files (listed : list string) (df : list patient)
    (out : list (patient * option string * string))
  : list (string * csv_table) :=
  let df_export : list export_row :=
    get_glucose_category_on (fun p => avg_glucose_level (fst (fst p))) out in
  let stroke_of_export := fun e : export_row => stroke (patient_of e) in
  [ ("stroke_data_tableau.csv", ExportTable df_export);
    ("age_group_tableau.csv",
     TextSummary (get_stats_by_column string_dec String.leb stroke_of_export
                    age_group_of listed df_export));
    ("gender_tableau.csv",
     TextSummary (get_stats_by_column string_dec String.leb stroke
                    by_gender_cell [] df));
    ("hypertension_tableau.csv",
     FlagSummary (get_stats_by_column Z.eq_dec Z.leb stroke by_hypertension
                    [] df));
    ("heart_disease_tableau.csv",
     FlagSummary (get_stats_by_column Z.eq_dec Z.leb stroke by_heart_disease
                    [] df));
    ("smoking_tableau.csv",
     TextSummary (get_stats_by_column string_dec String.leb stroke
                    by_smoking_status [] df));
    ("work_type_tableau.csv",
     TextSummary (get_stats_by_column string_dec String.leb stroke
                    by_work_type [] df));
    ("residence_tableau.csv",
     TextSummary (get_stats_by_column string_dec String.leb stroke
                    by_Residence_type [] df));
    ("bmi_category_tableau.csv",
     TextSummary (get_stats_by_column string_dec String.leb stroke_of_export
                    (fun e => Some (bmi_category_of e)) [] df_export));
    ("glucose_category_tableau.csv",
     TextSummary (get_stats_by_column string_dec String.leb stroke_of_export
                    (fun e => Some (glucose_category_of e)) [] df_export)) ].

(** File systems for the examples: one that takes every file, and one
    that is full after the first two. *)
Definition fs_ok : file_system := mkFs true (fun _ => true).
Definition fs_full_after_two : file_system :=
  mkFs true (fun name =>
    (name =? "stroke_data_tableau.csv")%string
    || (name =? "age_group_tableau.csv")%string).

(** Four rows, two of them without a [gender], one of these with no
    [smoking_status] either, and one with an age above the bins. *)
Definition missing_text_cells : list patient :=
  [ row_of 1 "Male" 150 (Num 20) 1;
    row_of 2 EmptyString 50 (Num 22) 0;
    set_smoking_status (row_of 3 EmptyString 61 (Num 31) 1) EmptyString;
    row_of 4 "Female" 33 NA 0 ].

(** Whether the age of a row lies within the outer edges of the age
    bins. *)
Definition age_in_range (r : patient) : bool :=
  match age r with
  | Some a => Qle_bool 0 a && Qle_bool a 100
  | None => false
  end.

(** ** The data behind the charts *)

(** One bar of a chart of rates: the grouping value, the sum and the
    count of [stroke] in the group, and the height of the bar. *)
Record rate_bar (K : Type) : Type := mkBar {
  bar_value : K;
  bar_sum : Z;
  bar_count : Z;
  bar_rate : float
}.
Arguments mkBar {K}.
Arguments bar_value {K}.
Arguments bar_sum {K}.
Arguments bar_count {K}.
Arguments bar_rate {K}.

Section Charts.

Context {A K : Type}.
Variable key_eq_dec : forall x y : K, {x = y} + {x <> y}.
Variable key_leb : K -> K -> bool.
Variable stroke_of : A -> Z.
Variable column : A -> option K.
Variable listed : list K.

(** The frame that the [plot_..._analysis] functions draw:
    [df.groupby(column)['stroke'].agg(['sum', 'count']).reset_index()]
    with the column [stroke_rate = sum / count * 100], not rounded. *)
Definition stroke_rate_frame (df : list A) : list (rate_bar K) :=
  map (fun g : K * Z * Z =>
         let '(k, sum, count) := g in
         {| bar_value := k; bar_sum := sum; bar_count := count;
            bar_rate := times100 (true_divide sum count) |})
      (groupby_agg key_eq_dec key_leb stroke_of column listed df).

End Charts.

Definition bmi_order : list string :=
  ["Underweight"; "Normal"; "Overweight"; "Obese"].
Definition glucose_order : list string :=
  ["Normal"; "Pre-diabetic"; "Diabetic"].

(** [Series.isin(values)] on one cell of a column of labels. *)
Definition isin (values : list string) (x : option string) : bool :=
  match x with
  | Some v => existsb (String.eqb v) values
  | None => false
  end.

(** The code of a label in [pd.Categorical(..., categories=categories,
    ordered=True)]: its position among the categories; a label that is
    not a category becomes the missing marker, which [sort_values] puts
    last. *)
Fixpoint category_code (categories : list string) (x : string) : nat :=
  match categories with
  | [] => O
  | c :: cs => if (x =? c)%string then O else S (category_code cs x)
  end.

Definition category_leb (categories : list string) (a b : rate_bar string)
  : bool :=
  (category_code categories (bar_value a)
   <=? category_code categories (bar_value b))%nat.

(** The frame drawn by [plot_bmi_analysis] and [plot_glucose_analysis]:
    the rows whose label is one of [order], grouped by label, with the
    rate, and sorted by the position of the label in [order]. *)
Definition category_rate_frame {A : Type} (order : list string)
    (stroke_of : A -> Z) (column : A -> option string) (df : list A)
  : list (rate_bar string) :=
  let df_cat := filter (fun r => isin order (column r)) df in
  let stats :=
    stroke_rate_frame string_dec String.leb stroke_of column [] df_cat in
  sort_keys (category_leb order) stats.

(** [plot_bmi_analysis(df)] and [plot_glucose_analysis(df)], up to the
    drawing. *)
Definition plot_bmi_frame {A : Type} := @category_rate_frame A bmi_order.
Definition plot_glucose_frame {A : Type} := @category_rate_frame A glucose_order.

(** The distinct values of a column, in the order of their first
    occurrence. *)
Fixpoint distinct (col : list Z) : list Z :=
  match col with
  | [] => []
  | v :: col' => v :: filter (fun x => negb (x =? v)) (distinct col')
  end.

(** [Series.value_counts()]: each distinct value with the number of its
    occurrences, by decreasing count (values of equal count in the order
    of their first occurrence). *)
Definition value_counts (col : list Z) : list (Z * Z) :=
  sort_keys (fun a b : Z * Z => snd b <=? snd a)
    (map (fun v => (v, Z.of_nat (List.length (filter (Z.eqb v) col))))
         (distinct col)).

(** The labels that [plot_stroke_distribution] gives to its bars, by
    position. *)
Definition stroke_distribution_labels : list string := ["No Stroke"; "Stroke"].

(** A table in which the positive outcomes are the majority. *)
Definition mostly_positive : list patient :=
  [ row_of 1 "Male" 70 (Num 30) 1;
    row_of 2 "Female" 40 (Num 22) 0;
    row_of 3 "Female" 81 (Num 27) 1 ].

(** The labels that [plot_medical_conditions] gives to the bars of its
    two charts, by position. *)
Definition hypertension_labels : list string :=
  ["No Hypertension"; "Hypertension"].
Definition heart_disease_labels : list string :=
  ["No Heart Disease"; "Heart Disease"].

(** A row with the given flags in [hypertension] and [heart_disease]. *)
Definition set_flags (r : patient) (h d : Z) : patient :=
  {| id := id r; gender := gender r; age := age r;
     hypertension := h; heart_disease := d;
     ever_married := ever_married r; work_type := work_type r;
     Residence_type := Residence_type r;
     avg_glucose_level := avg_glucose_level r;
     bmi := bmi r;
     smoking_status := smoking_status r; stroke := stroke r |}.

(** Four rows whose [hypertension] flags come in no order. *)
Definition unsorted_flags : list patient :=
  [ set_flags (row_of 1 "Male" 70 (Num 30) 1) 1 0;
    set_flags (row_of 2 "Female" 40 (Num 22) 0) 0 1;
    set_flags (row_of 3 "Female" 81 (Num 27) 1) 1 1;
    set_flags (row_of 4 "Male" 33 (Num 24) 0) 0 0 ].

(** Two rows with both flags in both columns. *)
Definition both_conditions : list patient :=
  [ set_flags (row_of 1 "Male" 70 (Num 30) 1) 0 1;
    set_flags (row_of 2 "Female" 40 (Num 22) 0) 1 0 ].

(** * Properties *)

(** ** Rows and cells *)

Lemma bmi_set_bmi (r : patient) (c : cell) : bmi (set_bmi r c) = c.
Proof. reflexivity. Qed.

Lemma other_fields_set_bmi (r : patient) (c : cell) :
  other_fields (set_bmi r c) = other_fields r.
Proof. reflexivity. Qed.

Lemma set_bmi_same (r : patient) : set_bmi r (bmi r) = r.
Proof. destruct r; reflexivity. Qed.

Lemma filter_map_commute {X Y : Type} (f : Y -> bool) (g : X -> Y) (l : list X) :
  filter f (map g l) = map g (filter (fun x => f (g x)) l).
Proof.
  induction l as [|x l IH]; simpl; [reflexivity|].
  destruct (f (g x)); simpl; now rewrite IH.
Qed.

Lemma filter_all_true {X : Type} (f : X -> bool) (l : list X) :
  (forall x, In x l -> f x = true) -> filter f l = l.
Proof.
  induction l as [|x l IH]; simpl; intros H; [reflexivity|].
  rewrite (H x (or_introl eq_refl)), IH; auto.
Qed.

Lemma map_id_on {X : Type} (f : X -> X) (l : list X) :
  (forall x, In x l -> f x = x) -> map f l = l.
Proof.
  induction l as [|x l IH]; simpl; intros H; [reflexivity|].
  rewrite (H x (or_introl eq_refl)), IH; auto.
Qed.

(** ** The median *)

Lemma Qle_bool_false (x y : Q) : Qle_bool x y = false -> (y < x)%Q.
Proof.
  intros H. apply Qnot_le_lt. intros Hle.
  apply Qle_bool_iff in Hle. congruence.
Qed.

Lemma Qeq_bool_false (x y : Q) :
  Qeq_bool x y = false -> (x < y)%Q \/ (y < x)%Q.
Proof.
  intros H. destruct (Q_dec x y) as [[Hlt|Hgt]|Heq]; auto.
  apply Qeq_bool_iff in Heq. congruence.
Qed.


Lemma length_insert_sorted (x : Q) (l : list Q) :
  List.length (insert_sorted x l) = S (List.length l).
Proof.
  induction l as [|y l IH]; simpl; [reflexivity|].
  destruct (Qle_bool x y); simpl; [reflexivity | now rewrite IH].
Qed.

Lemma length_sort_values (l : list Q) :
  List.length (sort_values l) = List.length l.
Proof.
  induction l as [|x l IH]; simpl; [reflexivity|].
  now rewrite length_insert_sorted, IH.
Qed.

Lemma median_no_numbers (col : list cell) :
  numbers col = [] -> median col = NA.
Proof. intros H. unfold median. now rewrite H. Qed.

Lemma median_some_numbers (col : list cell) :
  numbers col <> [] -> exists m, median col = Num m.
Proof.
  intros H. unfold median.
  rewrite length_sort_values.
  destruct (numbers col) as [|x l] eqn:E; [congruence|].
  cbn [List.length].
  destruct (Nat.even (S (List.length l))); eexists; reflexivity.
Qed.

Lemma numbers_nil_all (col : list cell) :
  numbers col = [] -> forall c x, In c col -> c <> Num x.
Proof.
  induction col as [|c0 col IH]; simpl; intros H c x Hin; [contradiction|].
  destruct c0; try discriminate; destruct Hin as [<-|Hin];
    try discriminate; eauto.
Qed.

Lemma numbers_all_NA (col : list cell) :
  (forall c, In c col -> c = NA) -> numbers col = [].
Proof.
  induction col as [|c0 col IH]; simpl; intros H; [reflexivity|].
  rewrite (H c0 (or_introl eq_refl)). auto.
Qed.

Lemma numbers_has_number (col : list cell) (x : Q) :
  In (Num x) col -> numbers col <> [].
Proof.
  intros Hin E. exact (numbers_nil_all col E (Num x) x Hin eq_refl).
Qed.

Lemma insert_sorted_perm (x : Q) (l : list Q) :
  Permutation (insert_sorted x l) (x :: l).
Proof.
  induction l as [|y l IH]; simpl; [reflexivity|].
  destruct (Qle_bool x y); [reflexivity|].
  rewrite IH. apply perm_swap.
Qed.

Lemma sort_values_perm (l : list Q) : Permutation (sort_values l) l.
Proof.
  induction l as [|x l IH]; simpl; [reflexivity|].
  rewrite insert_sorted_perm. now constructor.
Qed.

Lemma insert_sorted_sorted (x : Q) (l : list Q) :
  StronglySorted Qle l -> StronglySorted Qle (insert_sorted x l).
Proof.
  induction 1 as [|y l Hs IH Hall]; simpl.
  - repeat constructor.
  - destruct (Qle_bool x y) eqn:E.
    + apply Qle_bool_iff in E. constructor; [now constructor|].
      constructor; [exact E|].
      eapply Forall_impl; [|exact Hall].
      intros z Hz. now apply Qle_trans with y.
    + apply Qle_bool_false, Qlt_le_weak in E.
      constructor; [exact IH|].
      eapply Permutation_Forall; [symmetry; apply insert_sorted_perm|].
      now constructor.
Qed.

Lemma sort_values_sorted (l : list Q) : StronglySorted Qle (sort_values l).
Proof.
  induction l as [|x l IH]; simpl; [constructor|].
  now apply insert_sorted_sorted.
Qed.

Lemma count_perm (f : Q -> bool) (l l' : list Q) :
  Permutation l l' ->
  List.length (filter f l) = List.length (filter f l').
Proof.
  induction 1 as [|x l l' _ IH|x y l|l l' l'' _ IH1 _ IH2]; simpl.
  - reflexivity.
  - destruct (f x); simpl; now rewrite IH.
  - destruct (f x), (f y); reflexivity.
  - now rewrite IH1.
Qed.

(** In a sorted list the values up to a position are at most the value
    there, and the values from it on are at least that value. *)
Lemma sorted_nth_le (l : list Q) (i j : nat) :
  StronglySorted Qle l -> (i <= j < List.length l)%nat ->
  (nth i l 0 <= nth j l 0)%Q.
Proof.
  intros Hs. revert i j.
  induction Hs as [|x l Hs IH Hall]; intros i j Hij; [simpl in Hij; lia|].
  destruct i as [|i], j as [|j]; simpl in *; try lia.
  - apply Qle_refl.
  - rewrite Forall_forall in Hall. apply Hall, nth_In. lia.
  - apply IH. lia.
Qed.

Lemma count_le_from_prefix (l : list Q) (m : Q) (k : nat) :
  (k <= List.length l)%nat ->
  (forall i, (i < k)%nat -> (nth i l 0 <= m)%Q) ->
  (k <= count_le m l)%nat.
Proof.
  revert k. induction l as [|x l IH]; intros k Hk Hp; simpl in Hk.
  - lia.
  - destruct k as [|k]; [lia|].
    unfold count_le. cbn [filter].
    assert (Hx : Qle_bool x m = true) by (apply Qle_bool_iff, (Hp O); lia).
    rewrite Hx. cbn [List.length]. apply le_n_S.
    apply IH; [lia|]. intros i Hi. apply (Hp (S i)). lia.
Qed.

Lemma count_ge_from_suffix (l : list Q) (m : Q) (k : nat) :
  (k <= List.length l)%nat ->
  (forall i, (k <= i < List.length l)%nat -> (m <= nth i l 0)%Q) ->
  (List.length l - k <= count_ge m l)%nat.
Proof.
  revert k. induction l as [|x l IH]; intros k Hk Hp; simpl in Hk.
  - simpl. lia.
  - unfold count_ge. cbn [filter]. destruct k as [|k].
    + assert (Hx : Qle_bool m x = true)
        by (apply Qle_bool_iff, (Hp O); simpl; lia).
      rewrite Hx. cbn [List.length].
      specialize (IH O). unfold count_ge in IH. 
      assert (List.length l - 0 <= List.length (filter (fun x => Qle_bool m x) l))%nat.
      { apply IH; [lia|]. intros i Hi. apply (Hp (S i)). simpl. lia. }
      lia.
    + cbn [List.length].
      assert (List.length l - k <= List.length (filter (fun x => Qle_bool m x) l))%nat.
      { apply (IH k); [lia|]. intros i Hi. apply (Hp (S i)). simpl. lia. }
      destruct (Qle_bool m x); cbn [List.length]; lia.
Qed.

(** [median] returns a median: at least half of the numbers of the
    column are at most it, and at least half are at least it. *)
Lemma median_is_middle (col : list cell) (m : Q) :
  median col = Num m ->
  let n := List.length (numbers col) in
  (n <= 2 * count_le m (numbers col))%nat /\
  (n <= 2 * count_ge m (numbers col))%nat.
Proof.
  intros Hm n. unfold median in Hm.
  pose proof (sort_values_sorted (numbers col)) as Hs.
  pose proof (sort_values_perm (numbers col)) as Hp.
  unfold count_le, count_ge.
  rewrite <- (count_perm _ _ _ Hp), <- (count_perm _ _ _ Hp).
  fold (count_le m (sort_values (numbers col))).
  fold (count_ge m (sort_values (numbers col))).
  assert (Hn : List.length (sort_values (numbers col)) = n)
    by apply length_sort_values.
  rewrite Hn in Hm.
  set (s := sort_values (numbers col)) in *.
  destruct n as [|n'] eqn:En; [discriminate|]. rewrite <- En in *.
  assert (Hpos : (0 < n)%nat) by lia.
  destruct (Nat.even n) eqn:Ev.
  - apply Nat.even_spec in Ev. destruct Ev as [k Hk].
    assert (Hdiv : (n / 2 = k)%nat).
    { rewrite Hk, Nat.mul_comm. apply Nat.div_mul. lia. }
    rewrite Hdiv in Hm. injection Hm as Hm.
    assert (Hord : (nth (k - 1) s 0 <= nth k s 0)%Q)
      by (apply sorted_nth_le; [exact Hs | lia]).
    assert (Hlo : (nth (k - 1) s 0 <= m)%Q).
    { rewrite <- Hm. apply Qle_shift_div_l; lra. }
    assert (Hhi : (m <= nth k s 0)%Q).
    { rewrite <- Hm. apply Qle_shift_div_r; lra. }
    split.
    + assert (k <= count_le m s)%nat; [|lia].
      apply count_le_from_prefix; [lia|]. intros i Hi.
      apply Qle_trans with (nth (k - 1) s 0%Q); [|exact Hlo].
      apply sorted_nth_le; [exact Hs | lia].
    + assert (List.length s - k <= count_ge m s)%nat; [|lia].
      apply count_ge_from_suffix; [lia|]. intros i Hi.
      apply Qle_trans with (nth k s 0%Q); [exact Hhi|].
      apply sorted_nth_le; [exact Hs | lia].
  - assert (Hodd : Nat.odd n = true) by (now rewrite <- Nat.negb_even, Ev).
    apply Nat.odd_spec in Hodd. destruct Hodd as [k Hk].
    assert (Hdiv : (n / 2 = k)%nat).
    { rewrite Hk. rewrite Nat.add_comm, Nat.mul_comm, Nat.div_add by lia.
      reflexivity. }
    rewrite Hdiv in Hm. injection Hm as Hm.
    split.
    + assert (S k <= count_le m s)%nat; [|lia].
      apply count_le_from_prefix; [lia|]. intros i Hi. rewrite <- Hm.
      apply sorted_nth_le; [exact Hs | lia].
    + assert (List.length s - k <= count_ge m s)%nat; [|lia].
      apply count_ge_from_suffix; [lia|]. intros i Hi. rewrite <- Hm.
      apply sorted_nth_le; [exact Hs | lia].
Qed.

(** ** The cleaner *)

Section CleanerFacts.

Variable parse : string -> option Q.

Local Abbreviation tn := (to_numeric parse).
Local Abbreviation keep := (fun r : patient => negb (gender r =? "Other")%string).

(** The median that [clean_stroke_data] computes on [df]. *)
Local Abbreviation bmi_median df := (median (map (fun r => tn (bmi r)) df)).

Lemma to_numeric_not_text (c : cell) (s : string) : tn c <> Str s.
Proof.
  destruct c as [x| |s']; simpl; try discriminate.
  destruct (parse s'); discriminate.
Qed.

(** [clean_stroke_data] row by row: the rows whose gender is not
    ["Other"], each with its [bmi] read as a number and filled. *)
Lemma clean_stroke_data_rows (df : list patient) :
  clean_stroke_data parse df =
  map (fun r => set_bmi r (fillna (bmi_median df) (tn (bmi r)))) (filter keep df).
Proof.
  unfold clean_stroke_data.
  rewrite !map_map. cbn [bmi set_bmi].
  rewrite filter_map_commute.
  apply map_ext_in. intros r _. reflexivity.
Qed.

Lemma clean_stroke_data_bmi_cases (df : list patient) (r' : patient) :
  In r' (clean_stroke_data parse df) ->
  (exists v, bmi r' = Num v) \/ (bmi r' = NA /\ bmi_median df = NA).
Proof.
  rewrite clean_stroke_data_rows, in_map_iff.
  intros (r & <- & _). rewrite bmi_set_bmi.
  destruct (tn (bmi r)) as [x| |s] eqn:E.
  - left. now exists x.
  - simpl. destruct (bmi_median df) as [v| |s] eqn:Em; eauto.
    exfalso. unfold median in Em.
    destruct (List.length _); [discriminate|].
    destruct (Nat.even _); discriminate.
  - now apply to_numeric_not_text in E.
Qed.

Lemma numbers_map_Num (l : list Q) : numbers (map Num l) = l.
Proof. induction l as [|x l IH]; simpl; [reflexivity | now rewrite IH]. Qed.

Lemma median_skips_missing (col : list cell) :
  median (map Num (numbers col)) = median col.
Proof. unfold median. now rewrite numbers_map_Num. Qed.

Lemma clean_stroke_data_keeps (df : list patient) (r' : patient) :
  In r' (clean_stroke_data parse df) -> keep r' = true.
Proof.
  unfold clean_stroke_data. rewrite filter_In. now intros [_ H].
Qed.

(** Without a number in the column the cleaned [bmi] cells are all
    missing. *)
Lemma clean_stroke_data_all_missing (df : list patient) :
  bmi_median df = NA ->
  forall r', In r' (clean_stroke_data parse df) -> bmi r' = NA.
Proof.
  intros Em r' Hin.
  destruct (clean_stroke_data_bmi_cases df r' Hin) as [[v Hv]|[H _]];
    [|exact H].
  exfalso.
  rewrite clean_stroke_data_rows, in_map_iff in Hin.
  destruct Hin as (r & <- & Hr). rewrite bmi_set_bmi, Em in Hv.
  apply filter_In in Hr. destruct Hr as [Hr _].
  assert (Hnum : In (Num v) (map (fun r => tn (bmi r)) df)).
  { apply in_map_iff. exists r. split; [|exact Hr].
    destruct (tn (bmi r)); simpl in Hv; congruence. }
  apply numbers_has_number, median_some_numbers in Hnum.
  destruct Hnum as [m Hm]. congruence.
Qed.

Lemma clean_stroke_data_fixpoint (df : list patient) :
  clean_stroke_data parse (clean_stroke_data parse df)
  = clean_stroke_data parse df.
Proof.
  rewrite (clean_stroke_data_rows (clean_stroke_data parse df)).
  rewrite (filter_all_true _ _ (clean_stroke_data_keeps df)).
  apply map_id_on. intros r' Hin.
  destruct (clean_stroke_data_bmi_cases df r' Hin) as [[v Hv]|[Hna Em]].
  - rewrite Hv. simpl. rewrite <- Hv. apply set_bmi_same.
  - rewrite Hna. cbn [to_numeric fillna].
    rewrite median_no_numbers.
    + rewrite <- Hna. apply set_bmi_same.
    + apply numbers_all_NA. intros c Hc.
      apply in_map_iff in Hc. destruct Hc as (r'' & <- & Hr'').
      now rewrite (clean_stroke_data_all_missing df Em r'' Hr'').
Qed.

End CleanerFacts.

(** C1, as the code has it.  On every input table with at least one
    non-missing [bmi], [clean_stroke_data] replaces each missing [bmi] by
    the median of the originally non-missing values (a value with at
    least half of them on either side), computed once on the input
    column before any replacement, and keeps the other [bmi] values; no
    row of the result has a missing [bmi]. *)
Theorem clean_fills_missing_bmi_with_median
    (parse : string -> option Q) (df : list patient) :
  (exists r x, In r df /\ to_numeric parse (bmi r) = Num x) ->
  exists m : Q,
    let original := numbers (map (fun r => to_numeric parse (bmi r)) df) in
    median (map Num original) = Num m /\
    (List.length original <= 2 * count_le m original)%nat /\
    (List.length original <= 2 * count_ge m original)%nat /\
    map bmi (clean_stroke_data parse df) =
      map (fun r => match to_numeric parse (bmi r) with
                    | NA => Num m
                    | c => c
                    end)
          (filter (fun r => negb (gender r =? "Other")%string) df) /\
    Forall (fun r => exists x, bmi r = Num x) (clean_stroke_data parse df).
Proof.
  intros (r & x & Hin & Hx).
  assert (Hnum : In (Num x) (map (fun r => to_numeric parse (bmi r)) df)).
  { apply in_map_iff. now exists r. }
  apply numbers_has_number, median_some_numbers in Hnum.
  destruct Hnum as [m Hm]. exists m. cbv zeta.
  rewrite median_skips_missing. split; [exact Hm|].
  destruct (median_is_middle _ m Hm) as [Hle Hge].
  split; [exact Hle|]. split; [exact Hge|]. split.
  - rewrite clean_stroke_data_rows, map_map, Hm.
    apply map_ext. intros r0. rewrite bmi_set_bmi.
    now destruct (to_numeric parse (bmi r0)).
  - apply Forall_forall. intros r' Hr'.
    destruct (clean_stroke_data_bmi_cases parse df r' Hr') as [H|[_ E]];
      [exact H | congruence].
Qed.

(** C1 on the five rows: the one missing [bmi] becomes the median 25
    of 17, 22, 28 and 33. *)
Lemma clean_fills_missing_bmi_with_median_witness :
  map bmi (clean_stroke_data parse_decimal five_rows)
  = [Num 17; Num 22; Num 28; Num 33; Num (50 # 2)] /\
  exists m : Q,
    let original :=
      numbers (map (fun r => to_numeric parse_decimal (bmi r)) five_rows) in
    median (map Num original) = Num m /\
    (List.length original <= 2 * count_le m original)%nat /\
    (List.length original <= 2 * count_ge m original)%nat /\
    map bmi (clean_stroke_data parse_decimal five_rows) =
      map (fun r => match to_numeric parse_decimal (bmi r) with
                    | NA => Num m
                    | c => c
                    end)
          (filter (fun r => negb (gender r =? "Other")%string) five_rows) /\
    Forall (fun r => exists x, bmi r = Num x)
           (clean_stroke_data parse_decimal five_rows).
Proof.
  split; [reflexivity|].
  apply (clean_fills_missing_bmi_with_median parse_decimal five_rows).
  exists (row_of 1 "Male" 10 (Num 17) 0), 17%Q.
  split; [simpl; auto | reflexivity].
Defined.

(** C1 as stated fails on a table without any number in [bmi]: the
    median is the missing marker, and the cells stay missing. *)
Lemma clean_leaves_bmi_missing_without_numbers :
  exists r, In r (clean_stroke_data parse_decimal all_missing) /\ bmi r = NA.
Proof.
  exists (row_of 1 "Male" 40 NA 0). split; [|reflexivity].
  vm_compute. auto.
Qed.

(** C9.  [clean_stroke_data] is idempotent. *)
Theorem clean_idempotent (parse : string -> option Q) (df : list patient) :
  clean_stroke_data parse (clean_stroke_data parse df)
  = clean_stroke_data parse df.
Proof. apply clean_stroke_data_fixpoint. Qed.

(** C7, as the code has it.  [clean_stroke_data] never fails: a [bmi]
    token that is not a number, the sentinel or any other text, is read as
    missing, and the row comes out with the median in its [bmi]. *)
Theorem clean_coerces_unparseable_bmi
    (parse : string -> option Q) (df : list patient) (r : patient) (s : string) :
  In r df -> bmi r = Str s -> parse s = None -> gender r <> "Other" ->
  to_numeric parse (bmi r) = NA /\
  exists out,
    clean parse df = Ok out /\
    In (set_bmi r (median (map (fun r => to_numeric parse (bmi r)) df))) out.
Proof.
  intros Hin Hs Hp Hg.
  assert (Hna : to_numeric parse (bmi r) = NA).
  { rewrite Hs. simpl. now rewrite Hp. }
  split; [exact Hna|].
  exists (clean_stroke_data parse df). split; [reflexivity|].
  rewrite clean_stroke_data_rows. apply in_map_iff.
  exists r. split.
  - now rewrite Hna.
  - apply filter_In. split; [exact Hin|].
    apply negb_true_iff, String.eqb_neq, Hg.
Qed.

(** C7 on a table with the token ["abc"] in [bmi]. *)
Lemma clean_coerces_unparseable_bmi_witness :
  to_numeric parse_decimal (bmi (row_of 1 "Male" 40 (Str "abc") 0)) = NA /\
  exists out,
    clean parse_decimal garbage_bmi = Ok out /\
    In (set_bmi (row_of 1 "Male" 40 (Str "abc") 0)
          (median (map (fun r => to_numeric parse_decimal (bmi r)) garbage_bmi)))
       out.
Proof.
  apply (clean_coerces_unparseable_bmi parse_decimal garbage_bmi
           (row_of 1 "Male" 40 (Str "abc") 0) "abc").
  - simpl; auto.
  - reflexivity.
  - reflexivity.
  - discriminate.
Defined.

(** C7 as stated fails: the token ["abc"] is neither a number nor the
    sentinel, and the cleaner returns a table in which it has become the
    median of the column. *)
Lemma clean_accepts_unparseable_bmi :
  parse_decimal "abc" = None /\ "abc" <> "N/A" /\
  clean parse_decimal garbage_bmi
  = Ok [row_of 1 "Male" 40 (Num 20) 0; row_of 2 "Female" 50 (Num 20) 1] /\
  clean parse_decimal garbage_bmi <> Fail InvalidInput.
Proof.
  repeat split; try reflexivity; discriminate.
Qed.

(** C8, as the code has it.  [clean_stroke_data] keeps a row if and only
    if its gender is not the label ["Other"]: apart from [bmi], the result
    is the input without the rows of gender ["Other"], in the same order
    and with every other column unchanged. *)
Theorem clean_drops_other_gender_only
    (parse : string -> option Q) (df : list patient) :
  map other_fields (clean_stroke_data parse df)
  = map other_fields (filter (fun r => negb (gender r =? "Other")%string) df)
  /\
  forall r, In r df ->
    (In (other_fields r) (map other_fields (clean_stroke_data parse df))
     <-> gender r <> "Other").
Proof.
  assert (E : map other_fields (clean_stroke_data parse df)
              = map other_fields
                  (filter (fun r => negb (gender r =? "Other")%string) df)).
  { rewrite clean_stroke_data_rows, map_map. apply map_ext.
    intros r. apply other_fields_set_bmi. }
  split; [exact E|].
  intros r Hin. rewrite E, in_map_iff. split.
  - intros (r0 & Hf & Hr0). apply filter_In in Hr0.
    destruct Hr0 as [_ Hk]. apply negb_true_iff, String.eqb_neq in Hk.
    assert (Hg : gender r0 = gender r).
    { unfold other_fields in Hf. now inversion Hf. }
    now rewrite <- Hg.
  - intros Hg. exists r. split; [reflexivity|].
    apply filter_In. split; [exact Hin|].
    apply negb_true_iff, String.eqb_neq, Hg.
Qed.

(** C8 as stated fails: a row whose gender is neither of the two majority
    labels, and not ["Other"] either, is kept. *)
Lemma clean_keeps_gender_outside_majority :
  let r := row_of 1 "Unknown" 40 (Num 20) 0 in
  In r (clean_stroke_data parse_decimal [r]) /\
  gender r <> "Male" /\ gender r <> "Female".
Proof.
  cbv zeta. repeat split; try discriminate.
  vm_compute. auto.
Qed.

(** ** The categorizers *)

(** Splits on every comparison of the goal and turns the outcome into
    an order fact. *)
Ltac split_comparisons :=
  repeat match goal with
  | |- context [Qle_bool ?x ?y] =>
    let E := fresh "E" in
    destruct (Qle_bool x y) eqn:E;
    [apply Qle_bool_iff in E | apply Qle_bool_false in E]
  | |- context [Qeq_bool ?x ?y] =>
    let E := fresh "E" in
    destruct (Qeq_bool x y) eqn:E;
    [apply Qeq_bool_iff in E | apply Qeq_bool_false in E; destruct E as [E|E]]
  end.

Ltac solve_bins :=
  unfold age_group, cut, age_bins, age_labels, searchsorted, Qltb, hd;
  split_comparisons; cbn; try reflexivity; try (exfalso; lra).

Lemma age_group_first_bin (a : Q) :
  (0 <= a <= 18)%Q -> age_group (Some a) = Some "0-18".
Proof. intros H. solve_bins. Qed.

Lemma age_group_out_of_range (a : Q) :
  (a < 0 \/ 100 < a)%Q -> age_group (Some a) = None.
Proof. intros [H|H]; solve_bins. Qed.

Lemma age_group_bin2 (a : Q) :
  (18 < a <= 30)%Q -> age_group (Some a) = Some "19-30".
Proof. intros H. solve_bins. Qed.

Lemma age_group_bin3 (a : Q) :
  (30 < a <= 45)%Q -> age_group (Some a) = Some "31-45".
Proof. intros H. solve_bins. Qed.

Lemma age_group_bin4 (a : Q) :
  (45 < a <= 60)%Q -> age_group (Some a) = Some "46-60".
Proof. intros H. solve_bins. Qed.

Lemma age_group_bin5 (a : Q) :
  (60 < a <= 75)%Q -> age_group (Some a) = Some "61-75".
Proof. intros H. solve_bins. Qed.

Lemma age_group_last_bin (a : Q) :
  (75 < a <= 100)%Q -> age_group (Some a) = Some "75+".
Proof. intros H. solve_bins. Qed.

(** The bin an age of the range falls in. *)
Lemma age_range_cases (a : Q) :
  (0 <= a <= 100)%Q ->
  (0 <= a <= 18 \/ 18 < a <= 30 \/ 30 < a <= 45 \/ 45 < a <= 60 \/
   60 < a <= 75 \/ 75 < a <= 100)%Q.
Proof.
  intros H.
  destruct (Qlt_le_dec 18 a); [|lra].
  destruct (Qlt_le_dec 30 a); [|lra].
  destruct (Qlt_le_dec 45 a); [|lra].
  destruct (Qlt_le_dec 60 a); [|lra].
  destruct (Qlt_le_dec 75 a); lra.
Qed.

(** C2, as the code has it.  An age between 0 and 100, both included,
    gets exactly one of the six labels, fixed by the edges
    0, 18, 30, 45, 60, 75, 100 with each bin closed on the right and the
    first one closed on the left too; an age below 0 or above 100 gets
    the missing marker instead of a label.  The label depends on the age
    value alone.  Ages 18, 18.0001 and 100 get "0-18", "19-30" and
    "75+". *)
Theorem age_group_by_bins :
  (forall a : Q, (0 <= a <= 100)%Q ->
     exists l, In l age_labels /\ age_group (Some a) = Some l) /\
  (forall a : Q,
     ((0 <= a <= 18)%Q -> age_group (Some a) = Some "0-18") /\
     ((18 < a <= 30)%Q -> age_group (Some a) = Some "19-30") /\
     ((30 < a <= 45)%Q -> age_group (Some a) = Some "31-45") /\
     ((45 < a <= 60)%Q -> age_group (Some a) = Some "46-60") /\
     ((60 < a <= 75)%Q -> age_group (Some a) = Some "61-75") /\
     ((75 < a <= 100)%Q -> age_group (Some a) = Some "75+") /\
     ((a < 0 \/ 100 < a)%Q -> age_group (Some a) = None)) /\
  (forall a b : Q, (a == b)%Q -> age_group (Some a) = age_group (Some b)) /\
  (forall df, map snd (get_age_groups df) = map (fun r => age_group (age r)) df) /\
  age_group (Some 18%Q) = Some "0-18" /\
  age_group (Some 18.0001%Q) = Some "19-30" /\
  age_group (Some 100%Q) = Some "75+".
Proof.
  split; [|split; [|split; [|split]]].
  - intros a H.
    destruct (age_range_cases a H) as [C|[C|[C|[C|[C|C]]]]].
    + exists "0-18". split; [simpl; auto 10 | now apply age_group_first_bin].
    + exists "19-30". split; [simpl; auto 10 | now apply age_group_bin2].
    + exists "31-45". split; [simpl; auto 10 | now apply age_group_bin3].
    + exists "46-60". split; [simpl; auto 10 | now apply age_group_bin4].
    + exists "61-75". split; [simpl; auto 10 | now apply age_group_bin5].
    + exists "75+". split; [simpl; auto 10 | now apply age_group_last_bin].
  - intros a. split; [|split; [|split; [|split; [|split; [|split]]]]].
    + apply age_group_first_bin.
    + apply age_group_bin2.
    + apply age_group_bin3.
    + apply age_group_bin4.
    + apply age_group_bin5.
    + apply age_group_last_bin.
    + apply age_group_out_of_range.
  - intros a b Hab.
    destruct (Qlt_le_dec a 0) as [Hlo|Hlo].
    { rewrite !age_group_out_of_range; auto; left; lra. }
    destruct (Qlt_le_dec 100 a) as [Hhi|Hhi].
    { rewrite !age_group_out_of_range; auto; right; lra. }
    destruct (age_range_cases a (conj Hlo Hhi)) as [C|[C|[C|[C|[C|C]]]]].
    + rewrite !age_group_first_bin; auto; lra.
    + rewrite !age_group_bin2; auto; lra.
    + rewrite !age_group_bin3; auto; lra.
    + rewrite !age_group_bin4; auto; lra.
    + rewrite !age_group_bin5; auto; lra.
    + rewrite !age_group_last_bin; auto; lra.
  - intros df. unfold get_age_groups. now rewrite map_map.
  - repeat split.
Qed.

(** C2 as stated fails: the age 150 is defined and gets no label. *)
Lemma age_group_missing_above_100 :
  map snd (get_age_groups [row_of 1 "Male" 150 (Num 20) 0]) = [None] /\
  ~ exists l, In l age_labels /\ age_group (Some 150%Q) = Some l.
Proof.
  split; [reflexivity|].
  intros (l & _ & H). discriminate H.
Qed.

Lemma get_bmi_category_numeric (df : list patient) :
  (forall r s, In r df -> bmi r <> Str s) ->
  exists out,
    get_bmi_category df = Ok out /\ map fst out = df /\
    forall r c, In (r, c) out -> categorize_bmi (bmi r) = Ok c.
Proof.
  induction df as [|r df IH]; intros Hnum.
  - exists []. repeat split. intros r c [].
  - destruct IH as (out & Hout & Hfst & Hcat).
    { intros r0 s Hin. apply Hnum. now right. }
    assert (Hr : exists c, categorize_bmi (bmi r) = Ok c).
    { pose proof (Hnum r) as Hn.
      destruct (bmi r) as [x| |s]; unfold categorize_bmi, cell_lt; cbn [bind].
      - destruct (Qltb x (37 # 2)); [eauto|].
        destruct (Qltb x 25); [eauto|].
        destruct (Qltb x 30); eauto.
      - eauto.
      - exfalso. apply (Hn s); [now left | reflexivity]. }
    destruct Hr as [c Hc].
    exists ((r, c) :: out). unfold get_bmi_category in *.
    cbn [mapM]. rewrite Hc. cbn [bind]. rewrite Hout. cbn [bind].
    split; [reflexivity|]. split; [simpl; now rewrite Hfst|].
    intros r0 c0 [Heq|Hin]; [inversion Heq; subst; exact Hc | now apply Hcat].
Qed.

(** C10.  A missing [bmi] fails each of the three strict comparisons and
    reaches the last branch: [categorize_bmi] labels it "Obese".  So
    [get_bmi_category], applied to a table that was not cleaned (its
    [bmi] column numeric, with missing cells), returns a table in which
    every row with a missing [bmi] carries the label "Obese". *)
Theorem missing_bmi_is_labelled_obese (df : list patient) :
  (forall r s, In r df -> bmi r <> Str s) ->
  (forall y : Q, cell_lt NA y = Ok false) /\
  categorize_bmi NA = Ok "Obese" /\
  exists out,
    get_bmi_category df = Ok out /\ map fst out = df /\
    forall r c, In (r, c) out -> bmi r = NA -> c = "Obese".
Proof.
  intros Hnum. split; [reflexivity|]. split; [reflexivity|].
  destruct (get_bmi_category_numeric df Hnum) as (out & Hout & Hfst & Hcat).
  exists out. repeat split; auto.
  intros r c Hin Hna. specialize (Hcat r c Hin).
  rewrite Hna in Hcat. cbv in Hcat. congruence.
Qed.

(** C10 on the five rows, not cleaned. *)
Lemma missing_bmi_is_labelled_obese_witness :
  (forall y : Q, cell_lt NA y = Ok false) /\
  categorize_bmi NA = Ok "Obese" /\
  exists out,
    get_bmi_category five_rows = Ok out /\ map fst out = five_rows /\
    forall r c, In (r, c) out -> bmi r = NA -> c = "Obese".
Proof.
  apply (missing_bmi_is_labelled_obese five_rows).
  intros r s Hin.
  simpl in Hin.
  destruct Hin as [<-|[<-|[<-|[<-|[<-|[]]]]]]; discriminate.
Defined.

(** ** The aggregator *)

Section AggregatorFacts.

Context {A K : Type}.
Variable key_eq_dec : forall x y : K, {x = y} + {x <> y}.
Variable key_leb : K -> K -> bool.
Variable stroke_of : A -> Z.
Variable column : A -> option K.
Variable listed : list K.

Local Abbreviation group_of := (group key_eq_dec column).
Local Abbreviation keys_of := (group_keys key_eq_dec key_leb column listed).
Local Abbreviation with_key := (has_key column).
Local Abbreviation among := (key_among key_eq_dec column).
Local Abbreviation over_groups := (sum_groups key_eq_dec column).
Local Abbreviation stats_by_column :=
  (get_stats_by_column key_eq_dec key_leb stroke_of column listed).

(** A value of the grouping column that some row holds. *)
Local Abbreviation observed k df := (exists r, In r df /\ column r = Some k).

Lemma insert_key_perm (k : K) (l : list K) :
  Permutation (insert_key key_leb k l) (k :: l).
Proof.
  induction l as [|k' l IH]; simpl; [reflexivity|].
  destruct (key_leb k k'); [reflexivity|].
  rewrite IH. apply perm_swap.
Qed.

Lemma sort_keys_perm (l : list K) : Permutation (sort_keys key_leb l) l.
Proof.
  induction l as [|k l IH]; simpl; [reflexivity|].
  rewrite insert_key_perm. now constructor.
Qed.

Lemma observed_keys_In (df : list A) (k : K) :
  In k (observed_keys column df) <-> observed k df.
Proof.
  induction df as [|r df IH]; simpl.
  - split; [intros [] | intros (r & [] & _)].
  - destruct (column r) as [k'|] eqn:E; simpl; rewrite IH; split.
    + intros [<-|(r0 & H0 & H1)]; [exists r; auto | exists r0; auto].
    + intros (r0 & [<-|H0] & H1); [left; congruence | right; eauto].
    + intros (r0 & H0 & H1); eauto.
    + intros (r0 & [<-|H0] & H1); [congruence | eauto].
Qed.

Lemma group_keys_In (df : list A) (k : K) :
  In k (keys_of df) <-> observed k df \/ In k listed.
Proof.
  unfold group_keys. rewrite <- observed_keys_In, <- in_app_iff.
  split; intros H.
  - apply (nodup_In key_eq_dec).
    exact (Permutation_in k (sort_keys_perm _) H).
  - apply (Permutation_in k (Permutation_sym (sort_keys_perm _))).
    now apply nodup_In.
Qed.

Lemma group_keys_NoDup (df : list A) : NoDup (keys_of df).
Proof.
  unfold group_keys.
  eapply Permutation_NoDup; [symmetry; apply sort_keys_perm|].
  apply NoDup_nodup.
Qed.

Lemma in_group_iff (k : K) (r : A) :
  in_group key_eq_dec column k r = true <-> column r = Some k.
Proof.
  unfold in_group. destruct (column r) as [k'|]; [|split; discriminate].
  destruct (key_eq_dec k' k) as [->|Hne]; split; try easy.
  intros [= H]. contradiction.
Qed.

Lemma group_In (k : K) (df : list A) (r : A) :
  In r (group_of k df) <-> In r df /\ column r = Some k.
Proof. unfold group. now rewrite filter_In, in_group_iff. Qed.

(** The group of a value is empty exactly when no row holds the value. *)
Lemma group_nonempty (df : list A) (k : K) :
  observed k df <-> (0 < List.length (group_of k df))%nat.
Proof.
  split.
  - intros (r & Hin & Hk).
    assert (H : In r (group_of k df)) by now apply group_In.
    destruct (group_of k df); [contradiction | simpl; lia].
  - destruct (group_of k df) as [|r g] eqn:E; simpl; [lia|]. intros _.
    assert (H : In r (group_of k df)) by (rewrite E; now left).
    apply group_In in H. now exists r.
Qed.

Lemma sum_stroke_sum_by (l : list A) : sum_stroke stroke_of l = sum_by stroke_of l.
Proof. reflexivity. Qed.

Lemma length_sum_by (l : list A) : Z.of_nat (List.length l) = sum_by (fun _ => 1) l.
Proof.
  induction l as [|r l IH]; [reflexivity|].
  cbn [List.length sum_by fold_right]. fold (sum_by (fun _ => 1) l). lia.
Qed.

(** With outcomes 0 or 1 the sum of [stroke] counts the positive rows. *)
Lemma sum_stroke_counts_positive (l : list A) :
  (forall r, In r l -> stroke_of r = 0 \/ stroke_of r = 1) ->
  sum_stroke stroke_of l
  = Z.of_nat (List.length (filter (fun r => stroke_of r =? 1) l)).
Proof.
  induction l as [|r l IH]; intros Hb; [reflexivity|].
  cbn [sum_stroke fold_right filter].
  fold (sum_stroke stroke_of l). rewrite IH by (intros; apply Hb; now right).
  destruct (Hb r (or_introl eq_refl)) as [E|E]; rewrite E;
    cbn [Z.eqb Pos.eqb List.length]; lia.
Qed.

Lemma sum_groups_nil (w : A -> Z) (ks : list K) : over_groups w ks [] = 0.
Proof. induction ks as [|k ks IH]; [reflexivity|]. exact IH. Qed.

Lemma sum_groups_cons (w : A -> Z) (ks : list K) (r : A) (df : list A) :
  NoDup ks ->
  over_groups w ks (r :: df)
  = (if among ks r then w r else 0) + over_groups w ks df.
Proof.
  unfold sum_groups.
  induction ks as [|k ks IH]; intros Hnd.
  - unfold key_among. destruct (column r); reflexivity.
  - inversion Hnd as [|? ? Hnotin Hnd']; subst.
    cbn [map fold_right].
    rewrite (IH Hnd').
    unfold group at 1. cbn [filter]. fold (group_of k df).
    unfold key_among, in_group.
    destruct (column r) as [k0|]; [|lia].
    destruct (key_eq_dec k0 k) as [->|Hne].
    + destruct (in_dec key_eq_dec k ks) as [Hin|_]; [contradiction|].
      destruct (in_dec key_eq_dec k (k :: ks)) as [_|Hn];
        [cbn [sum_by fold_right]; fold (sum_by w (group_of k df)); lia
        | exfalso; apply Hn; now left].
    + destruct (in_dec key_eq_dec k0 ks) as [Hin|Hn];
        destruct (in_dec key_eq_dec k0 (k :: ks)) as [Hin'|Hn']; try lia.
      * exfalso; apply Hn'; now right.
      * exfalso. destruct Hin' as [E|Hin']; [congruence | contradiction].
Qed.

Lemma sum_groups_filter (w : A -> Z) (ks : list K) (df : list A) :
  NoDup ks ->
  over_groups w ks df = sum_by w (filter (among ks) df).
Proof.
  intros Hnd. induction df as [|r df IH].
  - apply sum_groups_nil.
  - rewrite sum_groups_cons by assumption. cbn [filter].
    destruct (among ks r); cbn [sum_by fold_right];
      fold (sum_by w (filter (among ks) df)); lia.
Qed.

Lemma key_among_group_keys (df : list A) (r : A) :
  In r df -> among (keys_of df) r = with_key r.
Proof.
  intros Hin. unfold key_among, has_key.
  destruct (column r) as [k|] eqn:E; [|reflexivity].
  destruct (in_dec key_eq_dec k (keys_of df)) as [_|Hn]; [reflexivity|].
  exfalso. apply Hn, group_keys_In. left. eauto.
Qed.

Lemma filter_ext_on {X : Type} (f g : X -> bool) (l : list X) :
  (forall x, In x l -> f x = g x) -> filter f l = filter g l.
Proof.
  induction l as [|x l IH]; intros H; [reflexivity|]. simpl.
  rewrite (H x (or_introl eq_refl)), IH; auto.
  intros; apply H; now right.
Qed.

(** Summing a weight group by group reaches each row that holds a
    grouping value once. *)
Lemma sum_groups_keys (w : A -> Z) (df : list A) :
  over_groups w (keys_of df) df = sum_by w (filter with_key df).
Proof.
  rewrite sum_groups_filter by apply group_keys_NoDup.
  f_equal. apply filter_ext_on, key_among_group_keys.
Qed.

Lemma sum_total_counts (df : list A) :
  sum_Z (map total_count (stats_by_column df))
  = Z.of_nat (List.length (filter with_key df)).
Proof.
  unfold get_stats_by_column, groupby_agg. rewrite !map_map. cbn [derive total_count].
  rewrite length_sum_by, <- sum_groups_keys. unfold sum_Z, sum_groups.
  f_equal. apply map_ext. intros k. apply length_sum_by.
Qed.

Lemma sum_stroke_counts (df : list A) :
  sum_Z (map stroke_count (stats_by_column df))
  = sum_stroke stroke_of (filter with_key df).
Proof.
  unfold get_stats_by_column, groupby_agg. rewrite !map_map. cbn [derive stroke_count].
  rewrite sum_stroke_sum_by, <- sum_groups_keys. reflexivity.
Qed.

Lemma stats_by_column_In (df : list A) (row : AggregationRow K) :
  In row (stats_by_column df) <->
  In (group_value row) (keys_of df) /\
  row = derive (group_value row,
                sum_stroke stroke_of (group_of (group_value row) df),
                Z.of_nat (List.length (group_of (group_value row) df))).
Proof.
  unfold get_stats_by_column, groupby_agg. rewrite map_map, in_map_iff.
  split.
  - intros (k & <- & Hk). cbn. split; [exact Hk | reflexivity].
  - intros [Hk E]. exists (group_value row). split; [now symmetry | exact Hk].
Qed.

End AggregatorFacts.
(** ** Rounding *)

(** [rint] returns a nearest integer, the even one on a tie. *)
Lemma rint_nearest (q : Q) :
  (Qabs (q - inject_Z (rint q)) <= 1 # 2)%Q /\
  ((Qabs (q - inject_Z (rint q)) == 1 # 2)%Q -> Z.even (rint q) = true).
Proof.
  unfold rint.
  pose proof (Qfloor_le q) as Hlo.
  pose proof (Qlt_floor q) as Hhi.
  rewrite inject_Z_plus in Hhi. change (inject_Z 1) with 1%Q in Hhi.
  set (f := Qfloor q) in *.
  destruct (q - inject_Z f ?= 1 # 2)%Q eqn:C.
  - apply Qeq_alt in C.
    destruct (Z.even f) eqn:Ev.
    + split; [|intros _; exact Ev].
      apply Qabs_Qle_condition. lra.
    + split.
      * rewrite inject_Z_plus. change (inject_Z 1) with 1%Q.
        apply Qabs_Qle_condition. lra.
      * intros _. rewrite Z.add_1_r, Z.even_succ, <- Z.negb_even, Ev.
        reflexivity.
  - apply Qlt_alt in C. split.
    + apply Qabs_Qle_condition. lra.
    + intros T. exfalso. rewrite Qabs_pos in T by lra. lra.
  - apply Qgt_alt in C. rewrite inject_Z_plus.
    change (inject_Z 1) with 1%Q. split.
    + apply Qabs_Qle_condition. lra.
    + intros T. exfalso. rewrite Qabs_neg in T by lra. lra.
Qed.

Lemma rate_finite (sc tc : Z) :
  tc <> 0 ->
  rate sc tc = Fin (inject_Z (rint (inject_Z sc / inject_Z tc * 100 * 100)) / 100).
Proof.
  intros H. unfold rate, true_divide.
  destruct (tc =? 0) eqn:E; [apply Z.eqb_eq in E; contradiction|].
  reflexivity.
Qed.

(** ** Binary64 rounding *)

Lemma pow2_pos (e : Z) : (0 < (2 : Q) ^ e)%Q.
Proof. apply Qpower_0_lt. reflexivity. Qed.

Lemma pow2_inject (n : Z) : 0 <= n -> ((2 : Q) ^ n == inject_Z (2 ^ n))%Q.
Proof.
  intros H. rewrite (Zpower_Qpower 2 n H). reflexivity.
Qed.

Lemma pow2_minus (a b : Z) : ((2 : Q) ^ (a - b) == 2 ^ a / 2 ^ b)%Q.
Proof. apply Qpower_minus. discriminate. Qed.

Lemma inject_Z_pos (z : Z) : 0 < z -> (0 < inject_Z z)%Q.
Proof. intros H. unfold Qlt. simpl. lia. Qed.

Lemma inject_Z_nonneg (z : Z) : 0 <= z -> (0 <= inject_Z z)%Q.
Proof. intros H. unfold Qle. simpl. lia. Qed.

(** A quotient of integers against a quotient of powers of two. *)
Lemma quotient_le (a b c d : Z) :
  0 < b -> 0 < d -> a * d <= c * b ->
  (inject_Z a / inject_Z b <= inject_Z c / inject_Z d)%Q.
Proof.
  intros Hb Hd H.
  assert (Hb' : (0 < inject_Z b)%Q) by (apply inject_Z_pos; exact Hb).
  assert (Hd' : (0 < inject_Z d)%Q) by (apply inject_Z_pos; exact Hd).
  apply Qle_shift_div_r; [exact Hb'|].
  setoid_replace (inject_Z c / inject_Z d * inject_Z b)%Q
    with (inject_Z (c * b) / inject_Z d)%Q
    by (rewrite inject_Z_mult; field; intros E; rewrite E in Hd'; discriminate).
  apply Qle_shift_div_l; [exact Hd'|].
  rewrite <- inject_Z_mult. rewrite <- Zle_Qle. exact H.
Qed.

Lemma quotient_lt (a b c d : Z) :
  0 < b -> 0 < d -> a * d < c * b ->
  (inject_Z a / inject_Z b < inject_Z c / inject_Z d)%Q.
Proof.
  intros Hb Hd H.
  assert (Hb' : (0 < inject_Z b)%Q) by (apply inject_Z_pos; exact Hb).
  assert (Hd' : (0 < inject_Z d)%Q) by (apply inject_Z_pos; exact Hd).
  apply Qlt_shift_div_r; [exact Hb'|].
  setoid_replace (inject_Z c / inject_Z d * inject_Z b)%Q
    with (inject_Z (c * b) / inject_Z d)%Q
    by (rewrite inject_Z_mult; field; intros E; rewrite E in Hd'; discriminate).
  apply Qlt_shift_div_l; [exact Hd'|].
  rewrite <- inject_Z_mult. rewrite <- Zlt_Qlt. exact H.
Qed.

Lemma Q_as_quotient (q : Q) : (q == inject_Z (Qnum q) / inject_Z (Zpos (Qden q)))%Q.
Proof. destruct q as [n d]. simpl. rewrite Qmake_Qdiv. reflexivity. Qed.

(** [binade] names the binade of a positive number. *)
Lemma binade_spec (q : Q) :
  (0 < q)%Q -> ((2 : Q) ^ binade q <= q)%Q /\ (q < (2 : Q) ^ (binade q + 1))%Q.
Proof.
  intros Hq.
  assert (Hn : 0 < Qnum q).
  { destruct q as [n d]. unfold Qlt in Hq. simpl in *. lia. }
  assert (Hd : 0 < Zpos (Qden q)) by reflexivity.
  pose proof (Z.log2_spec _ Hn) as [Hn1 Hn2].
  pose proof (Z.log2_spec _ Hd) as [Hd1 Hd2].
  pose proof (Z.log2_nonneg (Qnum q)) as Ha.
  pose proof (Z.log2_nonneg (Zpos (Qden q))) as Hb.
  unfold binade.
  set (a := Z.log2 (Qnum q)) in *.
  set (b := Z.log2 (Zpos (Qden q))) in *.
  assert (Pa : 0 < 2 ^ a) by (apply Z.pow_pos_nonneg; lia).
  assert (Pb : 0 < 2 ^ b) by (apply Z.pow_pos_nonneg; lia).
  assert (Pa1 : 0 < 2 ^ Z.succ a) by (apply Z.pow_pos_nonneg; lia).
  assert (Pb1 : 0 < 2 ^ Z.succ b) by (apply Z.pow_pos_nonneg; lia).
  destruct (Qle_bool ((2 : Q) ^ (a - b)) q) eqn:T.
  - split; [apply Qle_bool_iff; exact T|].
    replace (a - b + 1) with (Z.succ a - b) by lia.
    rewrite pow2_minus, (pow2_inject (Z.succ a)), (pow2_inject b) by lia.
    rewrite (Q_as_quotient q) at 1.
    apply quotient_lt; [reflexivity | exact Pb | nia].
  - split.
    + replace (a - b - 1) with (a - Z.succ b) by lia.
      rewrite pow2_minus, (pow2_inject a), (pow2_inject (Z.succ b)) by lia.
      rewrite (Q_as_quotient q) at 1.
      apply quotient_le; [exact Pb1 | reflexivity | nia].
    + replace (a - b - 1 + 1) with (a - b) by lia.
      apply Qle_bool_false. exact T.
Qed.

(** The unit in the last place times [2 ^ 52] is the bottom of the binade. *)
Lemma ulp_binade (e : Z) : ((2 : Q) ^ (e - 52) * inject_Z (2 ^ 52) == 2 ^ e)%Q.
Proof.
  rewrite pow2_minus, (pow2_inject 52) by lia.
  field. intros E. vm_compute in E. discriminate.
Qed.

(** The relative error of one rounding is at most [2 ^ -53]. *)
Lemma round64_error (q : Q) :
  (0 <= q)%Q ->
  (q * (1 - (1 # 2 ^ 53)) <= round64 q)%Q /\ (round64 q <= q * (1 + (1 # 2 ^ 53)))%Q.
Proof.
  intros Hq. unfold round64.
  destruct (Qnum q) as [|p|p] eqn:N.
  - assert (E : (q == 0)%Q) by (destruct q; simpl in *; subst; reflexivity).
    rewrite E. split; vm_compute; discriminate.
  - assert (Hpos : (0 < q)%Q).
    { destruct q as [n d]. unfold Qlt. simpl in *. subst. lia. }
    destruct (binade_spec q Hpos) as [Hlo _].
    pose proof (ulp_binade (binade q)) as Hu.
    pose proof (pow2_pos (binade q - 52)) as Hup.
    set (u := ((2 : Q) ^ (binade q - 52))%Q) in *.
    rewrite <- Hu in Hlo.
    destruct (rint_nearest (q / u)) as [Hr _].
    set (n := inject_Z (rint (q / u))) in *.
    apply Qabs_Qle_condition in Hr. destruct Hr as [Hr1 Hr2].
    assert (E : (q == q / u * u)%Q) by (field; intros Z0; rewrite Z0 in Hup; discriminate).
    set (y := (q / u)%Q) in *.
    assert (H1 : ((y - n) * u <= (1 # 2) * u)%Q).
    { apply Qmult_le_compat_r; [exact Hr2 | apply Qlt_le_weak; exact Hup]. }
    assert (H2 : (- (1 # 2) * u <= (y - n) * u)%Q).
    { apply Qmult_le_compat_r; [exact Hr1 | apply Qlt_le_weak; exact Hup]. }
    change (inject_Z (2 ^ 52)) with (4503599627370496 # 1)%Q in Hlo.
    change (1 # 2 ^ 53)%Q with (1 # 9007199254740992)%Q.
    assert (H3 : ((y - n) * u == q - n * u)%Q) by (rewrite E; ring).
    rewrite H3 in H1, H2.
    generalize dependent (n * u)%Q. intros z H1 H2 _.
    clearbody u y n. split; lra.
  - exfalso. destruct q as [n d]. unfold Qle in Hq. simpl in *. subst. lia.
Qed.

(** An integer within less than a half of a number is its [rint]. *)
Lemma rint_unique (q : Q) (m : Z) :
  (Qabs (q - inject_Z m) < 1 # 2)%Q -> rint q = m.
Proof.
  intros H. destruct (rint_nearest q) as [Hr _].
  apply Qabs_Qle_condition in Hr. destruct Hr as [Hr1 Hr2].
  apply Qabs_Qlt_condition in H. destruct H as [H1 H2].
  assert (L1 : (inject_Z (rint q) < inject_Z (m + 1))%Q).
  { rewrite inject_Z_plus. change (inject_Z 1) with 1%Q. lra. }
  assert (L2 : (inject_Z m < inject_Z (rint q + 1))%Q).
  { rewrite inject_Z_plus. change (inject_Z 1) with 1%Q. lra. }
  rewrite <- Zlt_Qlt in L1, L2. lia.
Qed.

(** The binary64 rate of a group: the binary64 number next to a hundredth
    [m / 100], whose [m] is within a half, and the accumulated rounding
    error, of the exact rate in hundredths. *)
Lemma binary64_rate_nearest (sc tc : Z) :
  0 <= sc <= tc -> 0 < tc ->
  exists m : Z,
    binary64_rate sc tc = Fin (round64 (inject_Z m / 100)%Q) /\
    0 <= m <= 10000 /\
    (Qabs (round64 (inject_Z m / 100) - inject_Z m / 100) <= 1 # 10 ^ 13)%Q /\
    (Qabs (inject_Z sc / inject_Z tc * 100 * 100 - inject_Z m)
     <= (1 # 2) + (1 # 10 ^ 11))%Q.
Proof.
  intros [H0 H1] Ht.
  unfold binary64_rate, true_divide64, times100_64, true_divide.
  destruct (tc =? 0) eqn:E; [apply Z.eqb_eq in E; lia|].
  cbn [to_binary64 times100 np_round64].
  set (x := (inject_Z sc / inject_Z tc)%Q).
  assert (Ht' : (0 < inject_Z tc)%Q) by (apply inject_Z_pos; exact Ht).
  assert (Hx0 : (0 <= x)%Q).
  { unfold x. apply Qle_shift_div_l; [exact Ht'|]. rewrite Qmult_0_l.
    apply inject_Z_nonneg. exact H0. }
  assert (Hx1 : (x <= 1)%Q).
  { unfold x. apply Qle_shift_div_r; [exact Ht'|]. rewrite Qmult_1_l.
    rewrite <- Zle_Qle. exact H1. }
  destruct (round64_error x Hx0) as [A1 A2].
  set (d1 := round64 x) in *.
  assert (Hd1 : (0 <= d1 * 100)%Q).
  { change (1 # 2 ^ 53)%Q with (1 # 9007199254740992)%Q in A1. lra. }
  destruct (round64_error (d1 * 100) Hd1) as [B1 B2].
  set (d2 := round64 (d1 * 100)) in *.
  change (inject_Z (10 ^ Z.of_nat 2)) with 100%Q.
  assert (Hd2 : (0 <= d2 * 100)%Q).
  { change (1 # 2 ^ 53)%Q with (1 # 9007199254740992)%Q in *. lra. }
  destruct (round64_error (d2 * 100) Hd2) as [C1 C2].
  set (d3 := round64 (d2 * 100)) in *.
  exists (rint d3).
  destruct (rint_nearest d3) as [Hr _].
  apply Qabs_Qle_condition in Hr. destruct Hr as [Hr1 Hr2].
  change (1 # 2 ^ 53)%Q with (1 # 9007199254740992)%Q in *.
  assert (Hm : 0 <= rint d3 <= 10000).
  { assert (L1 : (inject_Z (-1) < inject_Z (rint d3))%Q).
    { change (inject_Z (-1)) with (-1 # 1)%Q. clearbody x d1 d2 d3. lra. }
    assert (L2 : (inject_Z (rint d3) < inject_Z 10001)%Q).
    { change (inject_Z 10001) with (10001 # 1)%Q. clearbody x d1 d2 d3. nra. }
    rewrite <- Zlt_Qlt in L1, L2. lia. }
  split; [reflexivity|]. split; [exact Hm|].
  split.
  - assert (V0 : (0 <= inject_Z (rint d3) / 100)%Q).
    { apply Qle_shift_div_l; [reflexivity|]. rewrite Qmult_0_l.
      apply inject_Z_nonneg. lia. }
    assert (V1 : (inject_Z (rint d3) / 100 <= 100)%Q).
    { apply Qle_shift_div_r; [reflexivity|].
      change (100 * 100)%Q with (inject_Z 10000). rewrite <- Zle_Qle. lia. }
    destruct (round64_error _ V0) as [R1 R2].
    change (1 # 2 ^ 53)%Q with (1 # 9007199254740992)%Q in *.
    change (1 # 10 ^ 13)%Q with (1 # 10000000000000)%Q.
    generalize dependent (inject_Z (rint d3) / 100)%Q. intros v V0 V1.
    generalize (round64 v). intros r R1 R2.
    apply Qabs_Qle_condition. split; lra.
  - generalize dependent (inject_Z (rint d3)). intros n Hr1 Hr2.
    change (1 # 10 ^ 11)%Q with (1 # 100000000000)%Q.
    clearbody x d1 d2 d3.
    apply Qabs_Qle_condition. split; nra.
Qed.

Section AggregatorClaims.

Context {A K : Type}.
Variable key_eq_dec : forall x y : K, {x = y} + {x <> y}.
Variable key_leb : K -> K -> bool.
Variable stroke_of : A -> Z.
Variable column : A -> option K.
Variable listed : list K.

Local Abbreviation group_of := (group key_eq_dec column).
Local Abbreviation stats_by_column :=
  (get_stats_by_column key_eq_dec key_leb stroke_of column listed).

Lemma stats_binary64_In (df : list A) (row : AggregationRow K) :
  In row (get_stats_by_column_binary64 key_eq_dec key_leb stroke_of column listed df) <->
  In (group_value row) (group_keys key_eq_dec key_leb column listed df) /\
  row = derive_binary64 (group_value row,
                         sum_stroke stroke_of (group_of (group_value row) df),
                         Z.of_nat (List.length (group_of (group_value row) df))).
Proof.
  unfold get_stats_by_column_binary64, groupby_agg.
  rewrite map_map, in_map_iff.
  split.
  - intros (k & <- & Hk). cbn. split; [exact Hk | reflexivity].
  - intros [Hk E]. exists (group_value row). split; [now symmetry | exact Hk].
Qed.

(** C3, as the code has it.  On a table whose outcomes are 0 or 1, every
    row produced by [get_stats_by_column], its rate computed in binary64
    as the script does, describes the rows of the table that hold its
    grouping value: its positive count is the number of them with
    outcome 1, its total count is their number, its negative count is the
    total minus the positive.  When the total is not 0, its rate is the
    binary64 number next to a hundredth [m / 100], within [10 ^ -13] of
    it, where [m] is an integer within a half and [10 ^ -11] of
    positive / total * 10000: a nearest hundredth of the exact rate, up
    to the rounding errors of the three binary64 operations before
    [rint].  Away from a tie, [m / 100] is the exact rate rounded to two
    decimals; on a tie no rule of the exact value decides between the
    two hundredths.  With 100 rows and 5 positive ones the rate is 5. *)
Theorem aggregation_row_correct (df : list A) (row : AggregationRow K) :
  (forall r, In r df -> stroke_of r = 0 \/ stroke_of r = 1) ->
  In row (get_stats_by_column_binary64 key_eq_dec key_leb stroke_of column listed df) ->
  let members := group_of (group_value row) df in
  let positive :=
    Z.of_nat (List.length (filter (fun r => stroke_of r =? 1) members)) in
  let total := Z.of_nat (List.length members) in
  (forall r, In r members <-> In r df /\ column r = Some (group_value row)) /\
  stroke_count row = positive /\
  total_count row = total /\
  no_stroke_count row = total - positive /\
  stroke_rate row = binary64_rate positive total /\
  (0 < total ->
   exists m : Z,
     stroke_rate row = Fin (round64 (inject_Z m / 100)) /\
     0 <= m <= 10000 /\
     (Qabs (round64 (inject_Z m / 100) - inject_Z m / 100) <= 1 # 10 ^ 13)%Q /\
     (let x := inject_Z positive / inject_Z total * 100 in
      Qabs (x * 100 - inject_Z m) <= (1 # 2) + (1 # 10 ^ 11) /\
      (Qabs (x * 100 - inject_Z m) < 1 # 2 ->
       rate positive total = Fin (inject_Z m / 100)))%Q) /\
  (total = 100 -> positive = 5 ->
   exists q, stroke_rate row = Fin q /\ (q == 5)%Q).
Proof.
  intros Hb Hin members positive total.
  apply stats_binary64_In in Hin. destruct Hin as [Hk E].
  fold members in E.
  assert (Hpos : sum_stroke stroke_of members = positive).
  { apply sum_stroke_counts_positive. intros r Hr.
    apply group_In in Hr. now apply Hb. }
  rewrite Hpos in E. fold total in E.
  split; [intros r; apply group_In|].
  rewrite E.
  cbn [derive_binary64 stroke_count total_count no_stroke_count stroke_rate].
  repeat (split; [reflexivity|]).
  split.
  - intros Htot.
    assert (Hle : 0 <= positive <= total).
    { unfold positive, total.
      pose proof (filter_length_le (fun r => stroke_of r =? 1) members). lia. }
    destruct (binary64_rate_nearest positive total Hle Htot)
      as (m & Hm & Hrange & Hclose & Hnear).
    exists m. split; [exact Hm|]. split; [exact Hrange|].
    split; [exact Hclose|]. cbv zeta. split; [exact Hnear|].
    intros Hlt. rewrite rate_finite by lia.
    now rewrite (rint_unique _ m Hlt).
  - intros Et Ep. rewrite Et, Ep.
    eexists. split; [vm_compute; reflexivity|]. vm_compute. reflexivity.
Qed.

(** C4, as the code has it.  On a table in which every row holds a
    value in the grouping column, the total counts of the groups add up
    to the number of rows, and the positive counts add up to the sum of
    the outcomes of the table, which is the number of its positive rows
    when the outcomes are 0 or 1. *)
Theorem aggregation_conserves_counts (df : list A) :
  (forall r, In r df -> column r <> None) ->
  (forall r, In r df -> stroke_of r = 0 \/ stroke_of r = 1) ->
  sum_Z (map total_count (stats_by_column df)) = Z.of_nat (List.length df) /\
  sum_Z (map stroke_count (stats_by_column df))
  = stroke_cases (get_stroke_stats stroke_of df) /\
  sum_Z (map stroke_count (stats_by_column df))
  = Z.of_nat (List.length (filter (fun r => stroke_of r =? 1) df)).
Proof.
  intros Hkey Hb.
  assert (Hall : filter (has_key column) df = df).
  { apply filter_all_true. intros r Hr. unfold has_key.
    specialize (Hkey r Hr). now destruct (column r). }
  rewrite sum_total_counts, sum_stroke_counts, Hall.
  split; [reflexivity|]. split; [reflexivity|].
  now apply sum_stroke_counts_positive.
Qed.

(** C5, as the code has it.  A row of [get_stats_by_column] whose
    grouping value is held by some row of the table has a positive total
    count, and its rate is a number obtained without a zero divisor.  A
    row with the total count 0 comes only from a listed category that no
    row of the table holds, and there is none when the groups are the
    observed values.  The code has no failure for an empty group: the
    stage always returns, and a line with a zero count gets its derived
    columns all the same, the rate being the NaN of the division by
    zero. *)
Theorem aggregation_groups_observed (df : list A) :
  (forall row, In row (stats_by_column df) ->
     ((exists r, In r df /\ column r = Some (group_value row)) ->
      0 < total_count row /\ exists q, stroke_rate row = Fin q) /\
     (total_count row = 0 ->
      In (group_value row) listed /\
      ~ (exists r, In r df /\ column r = Some (group_value row)) /\
      stroke_rate row = NaN)) /\
  (listed = [] ->
   forall row, In row (stats_by_column df) -> 0 < total_count row) /\
  aggregate key_eq_dec key_leb stroke_of column listed df
  = Ok (stats_by_column df) /\
  (forall k : K,
     total_count (derive (k, 0, 0)) = 0 /\ stroke_rate (derive (k, 0, 0)) = NaN).
Proof.
  assert (Hrow : forall row, In row (stats_by_column df) ->
     ((exists r, In r df /\ column r = Some (group_value row)) ->
      0 < total_count row /\ exists q, stroke_rate row = Fin q) /\
     (total_count row = 0 ->
      In (group_value row) listed /\
      ~ (exists r, In r df /\ column r = Some (group_value row)) /\
      stroke_rate row = NaN)).
  { intros row Hin.
    apply stats_by_column_In in Hin. destruct Hin as [Hk E].
    pose proof (group_nonempty key_eq_dec column df (group_value row)) as Hne.
    apply (group_keys_In key_eq_dec key_leb column listed) in Hk.
    set (g := group_of (group_value row) df) in *.
    rewrite E. cbn [derive total_count stroke_rate group_value].
    split.
    - intros Hobs. apply Hne in Hobs.
      split; [lia|]. eexists. apply rate_finite. lia.
    - intros Hz.
      assert (Hempty : g = []) by (destruct g; [reflexivity | simpl in Hz; lia]).
      assert (Hno : ~ (exists r, In r df /\ column r = Some (group_value row))).
      { intros Hobs. apply Hne in Hobs. rewrite Hempty in Hobs.
        simpl in Hobs. lia. }
      split; [destruct Hk as [Hobs|Hl]; [contradiction | exact Hl]|].
      split; [exact Hno|].
      rewrite Hempty. reflexivity. }
  split; [exact Hrow|].
  split; [|split; [reflexivity | intros k; split; reflexivity]].
  intros Hnil row Hin.
  destruct (Hrow row Hin) as [_ Hz].
  destruct (Z.eq_dec (total_count row) 0) as [E|E].
  - destruct (Hz E) as [Hl _]. rewrite Hnil in Hl. contradiction.
  - apply stats_by_column_In in Hin. destruct Hin as [_ Er].
    rewrite Er in E |- *. cbn [derive total_count] in *. lia.
Qed.

End AggregatorClaims.

Section ConstantKey.

Context {A K : Type}.
Variable key_eq_dec : forall x y : K, {x = y} + {x <> y}.
Variable key_leb : K -> K -> bool.
Variable stroke_of : A -> Z.

Lemma observed_keys_constant (k : K) (df : list A) :
  observed_keys (fun _ => Some k) df = repeat k (List.length df).
Proof. induction df as [|r df IH]; simpl; [reflexivity | now rewrite IH]. Qed.

Lemma nodup_repeat (k : K) (n : nat) :
  nodup key_eq_dec (repeat k (S n)) = [k].
Proof.
  induction n as [|n IH]; [reflexivity|].
  change (repeat k (S (S n))) with (k :: repeat k (S n)).
  cbn [nodup].
  destruct (in_dec key_eq_dec k (repeat k (S n))) as [_|Hn]; [exact IH|].
  exfalso. apply Hn. now left.
Qed.

Lemma group_constant (k : K) (df : list A) :
  group key_eq_dec (fun _ => Some k) k df = df.
Proof.
  unfold group. apply filter_all_true. intros r _.
  unfold in_group. now destruct (key_eq_dec k k).
Qed.

(** C6, as the code has it.  On a table with at least one row, grouping
    by a column that holds one value throughout gives exactly one row,
    and its total, positive and negative counts and its rate are those of
    [get_stroke_stats] on the table. *)
Theorem constant_key_matches_summary (df : list A) (k : K) :
  df <> [] ->
  exists row,
    get_stats_by_column key_eq_dec key_leb stroke_of (fun _ => Some k) [] df
    = [row] /\
    group_value row = k /\
    total_count row = total_patients (get_stroke_stats stroke_of df) /\
    stroke_count row = stroke_cases (get_stroke_stats stroke_of df) /\
    no_stroke_count row = no_stroke_cases (get_stroke_stats stroke_of df) /\
    stroke_rate row = stats_stroke_rate (get_stroke_stats stroke_of df).
Proof.
  intros Hne.
  destruct df as [|r df]; [congruence|].
  eexists. split.
  - unfold get_stats_by_column, groupby_agg, group_keys.
    rewrite observed_keys_constant, app_nil_r. cbn [List.length].
    rewrite nodup_repeat. cbn [sort_keys insert_key map].
    rewrite group_constant. reflexivity.
  - repeat split.
Qed.

End ConstantKey.

(** ** The claims on the example tables *)

Lemma hundred_rows_binary (r : patient) :
  In r hundred_rows -> stroke r = 0 \/ stroke r = 1.
Proof.
  unfold hundred_rows. intros Hin. apply in_app_or in Hin.
  destruct Hin as [H|H]; apply repeat_spec in H; subst; auto.
Qed.

Lemma five_rows_binary (r : patient) :
  In r five_rows -> stroke r = 0 \/ stroke r = 1.
Proof.
  simpl. intros [<-|[<-|[<-|[<-|[<-|[]]]]]]; auto.
Qed.

(** C3 on a hundred rows of one gender with five positive outcomes. *)
Lemma aggregation_row_correct_witness :
  exists row q,
    get_stats_by_column_binary64 string_dec String.leb stroke by_gender []
      hundred_rows = [row] /\
    group_value row = "Male" /\
    stroke_count row = 5 /\ total_count row = 100 /\ no_stroke_count row = 95 /\
    stroke_rate row = Fin q /\ (q == 5)%Q.
Proof.
  pose (row := derive_binary64 ("Male", 5, 100)).
  assert (Hrows : get_stats_by_column_binary64 string_dec String.leb stroke
                    by_gender [] hundred_rows = [row]).
  { vm_compute. reflexivity. }
  assert (Hin : In row (get_stats_by_column_binary64 string_dec String.leb
                          stroke by_gender [] hundred_rows)).
  { rewrite Hrows. left. reflexivity. }
  destruct (aggregation_row_correct string_dec String.leb stroke by_gender []
              hundred_rows row hundred_rows_binary Hin)
    as (_ & Hs & Ht & Hn & _ & _ & Hr).
  destruct (Hr eq_refl eq_refl) as (q & Hq & Hq5).
  exists row, q.
  split; [exact Hrows|]. split; [reflexivity|].
  split; [reflexivity|]. split; [reflexivity|]. split; [reflexivity|].
  split; [exact Hq | exact Hq5].
Defined.

(** C3 as stated fails: the rate is not the exact quotient rounded under
    one rule.  Of 160 rows with 23 positive ones the exact rate is
    14.375, a tie that rounding half to even and rounding half up both
    send to 14.38, and the script returns the binary64 number of 14.37;
    of 32 rows with 3 positive ones the exact rate is 9.375, the same
    kind of tie, and the script returns the binary64 number of 9.38.
    The first tie goes down, to an odd hundredth, the second up, to an
    even one. *)
Lemma rate_ties_follow_no_rule :
  (exists q,
     get_stats_by_column_binary64 string_dec String.leb stroke by_gender []
       tie_rows_160 = [mkRow "Male" 23 160 137 (Fin q)] /\
     (inject_Z 23 / inject_Z 160 * 100 == 14375 # 1000)%Q /\
     (q == 8089590830664253 # 562949953421312)%Q /\
     (Qabs (q - (1437 # 100)) < 1 # 10 ^ 14)%Q /\
     rate 23 160 = Fin (inject_Z 1438 / 100)) /\
  (exists q,
     get_stats_by_column_binary64 string_dec String.leb stroke by_gender []
       tie_rows_32 = [mkRow "Male" 3 32 29 (Fin q)] /\
     (inject_Z 3 / inject_Z 32 * 100 == 9375 # 1000)%Q /\
     (q == 5280470563091907 # 562949953421312)%Q /\
     (Qabs (q - (938 # 100)) < 1 # 10 ^ 14)%Q /\
     rate 3 32 = Fin (inject_Z 938 / 100)).
Proof.
  split; eexists;
    (split; [vm_compute; reflexivity|]);
    (split; [vm_compute; reflexivity|]);
    (split; [vm_compute; reflexivity|]);
    (split; [vm_compute; reflexivity|]);
    vm_compute; reflexivity.
Qed.

(** C4 on the five rows grouped by gender. *)
Lemma aggregation_conserves_counts_witness :
  let rows := get_stats_by_column string_dec String.leb stroke by_gender [] five_rows in
  sum_Z (map total_count rows) = 5 /\
  sum_Z (map stroke_count rows) = 2.
Proof.
  cbv zeta.
  destruct (aggregation_conserves_counts string_dec String.leb stroke by_gender []
              five_rows) as (Ht & _ & Hs).
  - intros r _. discriminate.
  - exact five_rows_binary.
  - split; [exact Ht | exact Hs].
Defined.

(** C4 as stated fails: [get_age_groups] gives the age 150 no group, the
    grouping by [age_group] leaves that row out, and the counts of the
    groups add up to less than those of the table, whether the six
    categories are listed or only the observed ones. *)
Lemma aggregation_leaves_out_rows_without_group :
  Z.of_nat (List.length (get_age_groups out_of_range_age)) = 2 /\
  sum_Z (map total_count (age_group_stats [] out_of_range_age)) = 1 /\
  sum_Z (map total_count (age_group_stats age_labels out_of_range_age)) = 1 /\
  stroke_cases (get_stroke_stats stroke out_of_range_age) = 1 /\
  sum_Z (map stroke_count (age_group_stats [] out_of_range_age)) = 0 /\
  sum_Z (map stroke_count (age_group_stats age_labels out_of_range_age)) = 0.
Proof. repeat split. Qed.

(** C5 as stated fails: the derived columns of a line with a zero count
    are computed without any failure, by a division by zero whose result
    is NaN. *)
Lemma zero_count_group_divides_by_zero :
  map derive [("0-18", 1, 4); ("31-45", 0, 0)]
  = [mkRow "0-18" 1 4 3 (Fin (2500 # 100)); mkRow "31-45" 0 0 0 NaN] /\
  true_divide 0 0 = NaN.
Proof. repeat split. Qed.

(** C6 on the five rows under one constant key. *)
Lemma constant_key_matches_summary_witness :
  get_stats_by_column string_dec String.leb stroke (fun _ => Some "all") []
    five_rows
  = [mkRow "all" 2 5 3 (Fin (4000 # 100))] /\
  get_stroke_stats stroke five_rows = mkStats 5 2 3 (Fin (4000 # 100)).
Proof.
  destruct (constant_key_matches_summary string_dec String.leb stroke
              five_rows "all") as (row & Hrows & _).
  - discriminate.
  - rewrite Hrows. split; [|reflexivity].
    revert Hrows. vm_compute. intros Hrows. now inversion Hrows.
Defined.

(** C6 as stated fails on the table without rows: the grouping gives no
    row at all. *)
Lemma constant_key_no_row_on_empty_table :
  ~ exists row : AggregationRow string,
      get_stats_by_column string_dec String.leb stroke (fun _ => Some "all")
        [] ([] : list patient) = [row].
Proof. intros (row & H). discriminate H. Qed.

(** ** The scenario of the design *)

(** Five rows of ages 10, 25, 50, 70, 90, [bmi] 17, 22, 28, 33 and one
    missing, outcomes 0, 1, 0, 1, 0: the missing [bmi] becomes the median
    25, and the grouping by [age_group] on the observed categories gives
    five groups of one row with the rates 0, 100, 0, 100, 0. *)
Example scenario_five_rows :
  let df_clean := clean_stroke_data parse_decimal five_rows in
  map bmi df_clean = [Num 17; Num 22; Num 28; Num 33; Num (50 # 2)] /\
  map (fun row => (group_value row, total_count row, stroke_rate row))
      (age_group_stats [] df_clean)
  = [ ("0-18", 1, Fin (0 # 100)); ("19-30", 1, Fin (10000 # 100));
      ("46-60", 1, Fin (0 # 100)); ("61-75", 1, Fin (10000 # 100));
      ("75+", 1, Fin (0 # 100)) ].
Proof. cbv zeta. split; reflexivity. Qed.

(** With the six categories listed, the same table gets a sixth row,
    for the category that no row holds: its counts are 0 and its rate is
    NaN. *)
Example scenario_unobserved_category :
  map (fun row => (group_value row, total_count row, stroke_rate row))
      (age_group_stats age_labels (clean_stroke_data parse_decimal five_rows))
  = [ ("0-18", 1, Fin (0 # 100)); ("19-30", 1, Fin (10000 # 100));
      ("31-45", 0, NaN);
      ("46-60", 1, Fin (0 # 100)); ("61-75", 1, Fin (10000 # 100));
      ("75+", 1, Fin (0 # 100)) ].
Proof. reflexivity. Qed.

(** * Further properties of the pipeline *)

(** ** The categorizers *)

Lemma Qltb_true (x y : Q) : Qltb x y = true <-> (x < y)%Q.
Proof.
  unfold Qltb. rewrite negb_true_iff. split.
  - apply Qle_bool_false.
  - intros H. destruct (Qle_bool y x) eqn:E; [|reflexivity].
    apply Qle_bool_iff in E. lra.
Qed.

Lemma Qltb_false (x y : Q) : Qltb x y = false <-> (y <= x)%Q.
Proof.
  unfold Qltb. rewrite negb_false_iff. apply Qle_bool_iff.
Qed.

(** X1.  [categorize_bmi] on a number: the label is fixed by the thresholds
    18.5, 25 and 30, each threshold belonging to the upper category. *)
Theorem categorize_bmi_by_thresholds (x : Q) :
  ((x < 37 # 2)%Q -> categorize_bmi (Num x) = Ok "Underweight") /\
  ((37 # 2 <= x < 25)%Q -> categorize_bmi (Num x) = Ok "Normal") /\
  ((25 <= x < 30)%Q -> categorize_bmi (Num x) = Ok "Overweight") /\
  ((30 <= x)%Q -> categorize_bmi (Num x) = Ok "Obese").
Proof.
  unfold categorize_bmi, cell_lt. cbn [bind].
  repeat split; intros H;
    destruct (Qltb x (37 # 2)) eqn:E1;
    destruct (Qltb x 25) eqn:E2;
    destruct (Qltb x 30) eqn:E3;
    try reflexivity; exfalso;
    repeat match goal with
    | E : Qltb _ _ = true |- _ => apply Qltb_true in E
    | E : Qltb _ _ = false |- _ => apply Qltb_false in E
    end; lra.
Qed.

Lemma mapM_fail_inv {X Y : Type} (f : X -> result Y) (l : list X) (e : error) :
  mapM f l = Fail e -> exists x, In x l /\ f x = Fail e.
Proof.
  induction l as [|x l IH]; simpl; [discriminate|].
  destruct (f x) as [y|e'] eqn:E; cbn [bind].
  - destruct (mapM f l) as [ys|e'']; cbn [bind]; [discriminate|].
    intros [= ->]. destruct (IH eq_refl) as (x0 & H0 & H1). eauto.
  - intros [= ->]. eauto.
Qed.

Lemma categorize_bmi_fail (c : cell) (e : error) :
  categorize_bmi c = Fail e <-> e = TypeError /\ exists s, c = Str s.
Proof.
  destruct c as [x| |s]; unfold categorize_bmi, cell_lt; cbn [bind].
  - split; [|intros (_ & s & H); discriminate].
    destruct (Qltb x (37 # 2)); [discriminate|].
    destruct (Qltb x 25); [discriminate|].
    destruct (Qltb x 30); discriminate.
  - split; [discriminate | intros (_ & s & H); discriminate].
  - split; [intros [= <-]; eauto | intros [-> _]; reflexivity].
Qed.

Lemma categorize_bmi_labels (c : cell) (l : string) :
  categorize_bmi c = Ok l ->
  In l ["Underweight"; "Normal"; "Overweight"; "Obese"].
Proof.
  destruct c as [x| |s]; unfold categorize_bmi, cell_lt; cbn [bind].
  - destruct (Qltb x (37 # 2)); [intros [= <-]; simpl; auto|].
    destruct (Qltb x 25); [intros [= <-]; simpl; auto|].
    destruct (Qltb x 30); intros [= <-]; simpl; auto.
  - intros [= <-]; simpl; auto.
  - discriminate.
Qed.

Lemma get_bmi_category_text_not_ok (df : list patient) (r : patient) (s : string) :
  In r df -> bmi r = Str s -> forall out, get_bmi_category df <> Ok out.
Proof.
  unfold get_bmi_category.
  induction df as [|r0 df IH]; intros Hin Hs out; [destruct Hin|].
  cbn [mapM]. destruct Hin as [->|Hin].
  - rewrite Hs. cbn. discriminate.
  - destruct (categorize_bmi (bmi r0)); cbn [bind]; [|discriminate].
    destruct (mapM _ df) as [bs|e] eqn:E; cbn [bind]; [|discriminate].
    exfalso. exact (IH Hin Hs bs eq_refl).
Qed.

Lemma get_bmi_category_fail_type (df : list patient) (e : error) :
  get_bmi_category df = Fail e ->
  e = TypeError /\ exists r s, In r df /\ bmi r = Str s.
Proof.
  intros Hf. unfold get_bmi_category in Hf.
  apply mapM_fail_inv in Hf. destruct Hf as (r & Hin & Hr).
  destruct (categorize_bmi (bmi r)) as [l|e'] eqn:E; [discriminate|].
  injection Hr as ->. apply categorize_bmi_fail in E.
  destruct E as [-> (s & Hs)]. split; [reflexivity|]. eauto.
Qed.

(** X2.  [get_bmi_category] raises exactly when some [bmi] cell is text, and
    then with the [TypeError] of the comparison; otherwise it returns
    the rows of its input, in order, each with one of the four labels. *)
Theorem get_bmi_category_fails_on_text (df : list patient) :
  (forall e, get_bmi_category df = Fail e <->
             e = TypeError /\ exists r s, In r df /\ bmi r = Str s) /\
  (forall out, get_bmi_category df = Ok out ->
     map fst out = df /\
     forall r l, In (r, l) out ->
       categorize_bmi (bmi r) = Ok l /\
       In l ["Underweight"; "Normal"; "Overweight"; "Obese"]).
Proof.
  split.
  - intros e. split; [apply get_bmi_category_fail_type|].
    intros [-> (r & s & Hin & Hs)].
    destruct (get_bmi_category df) as [out|e] eqn:E.
    + exfalso. exact (get_bmi_category_text_not_ok df r s Hin Hs out E).
    + apply get_bmi_category_fail_type in E. now destruct E as [-> _].
  - intros out Hout.
    destruct (get_bmi_category_numeric df) as (out' & H1 & H2 & H3).
    { intros r s Hin Hs.
      exact (get_bmi_category_text_not_ok df r s Hin Hs out Hout). }
    assert (out' = out) by congruence. subst out'.
    split; [exact H2|]. intros r l Hin.
    split; [now apply H3|].
    apply (categorize_bmi_labels (bmi r)). now apply H3.
Qed.

(** X3.  The pipeline of the scripts: [get_bmi_category] never raises on a
    table that went through [clean_stroke_data], whatever text the [bmi]
    column of the loaded table held, and it labels every cleaned row. *)
Theorem get_bmi_category_after_clean
    (parse : string -> option Q) (df : list patient) :
  exists out,
    get_bmi_category (clean_stroke_data parse df) = Ok out /\
    map fst out = clean_stroke_data parse df /\
    forall r l, In (r, l) out ->
      categorize_bmi (bmi r) = Ok l /\
      In l ["Underweight"; "Normal"; "Overweight"; "Obese"].
Proof.
  destruct (get_bmi_category_numeric (clean_stroke_data parse df))
    as (out & H1 & H2 & H3).
  { intros r s Hin Hs.
    destruct (clean_stroke_data_bmi_cases parse df r Hin) as [[v Hv]|[Hna _]];
      congruence. }
  exists out. split; [exact H1|]. split; [exact H2|].
  intros r l Hin. split; [now apply H3|].
  apply (categorize_bmi_labels (bmi r)). now apply H3.
Qed.

(** X4.  [categorize_glucose]: the label is fixed by the thresholds 100 and
    126, each belonging to the upper category, and a missing level fails
    both comparisons and is labelled "Diabetic".  [get_glucose_category]
    keeps the rows and their order. *)
Theorem categorize_glucose_by_thresholds :
  (forall x : Q,
     ((x < 100)%Q -> categorize_glucose (Some x) = "Normal") /\
     ((100 <= x < 126)%Q -> categorize_glucose (Some x) = "Pre-diabetic") /\
     ((126 <= x)%Q -> categorize_glucose (Some x) = "Diabetic")) /\
  categorize_glucose None = "Diabetic" /\
  (forall df,
     map fst (get_glucose_category df) = df /\
     forall r l, In (r, l) (get_glucose_category df) ->
       avg_glucose_level r = None -> l = "Diabetic").
Proof.
  split; [|split; [reflexivity|]].
  - intros x. unfold categorize_glucose, num_lt.
    repeat split; intros H;
      destruct (Qltb x 100) eqn:E1; destruct (Qltb x 126) eqn:E2;
      try reflexivity; exfalso;
      repeat match goal with
      | E : Qltb _ _ = true |- _ => apply Qltb_true in E
      | E : Qltb _ _ = false |- _ => apply Qltb_false in E
      end; lra.
  - intros df. unfold get_glucose_category. split.
    + rewrite map_map. cbn [fst]. apply map_id.
    + intros r l Hin Hna. apply in_map_iff in Hin.
      destruct Hin as (r0 & [= <- <-] & _). now rewrite Hna.
Qed.

(** ** The statistics *)

Lemma rint_bounds (y : Q) (lo hi : Z) :
  (inject_Z lo <= y <= inject_Z hi)%Q -> lo <= rint y <= hi.
Proof.
  intros [Hlo Hhi].
  destruct (rint_nearest y) as [Hn _].
  apply Qabs_Qle_condition in Hn. destruct Hn as [Hn1 Hn2].
  split.
  - destruct (Z_le_gt_dec lo (rint y)) as [H|H]; [exact H|exfalso].
    assert (H' : rint y + 1 <= lo) by lia.
    rewrite Zle_Qle, inject_Z_plus in H'.
    change (inject_Z 1) with 1%Q in H'. lra.
  - destruct (Z_le_gt_dec (rint y) hi) as [H|H]; [exact H|exfalso].
    assert (H' : hi + 1 <= rint y) by lia.
    rewrite Zle_Qle, inject_Z_plus in H'.
    change (inject_Z 1) with 1%Q in H'. lra.
Qed.

(** A rate computed from counts [0 <= sc <= tc], [tc] not zero, is a
    number between 0 and 100, within half a hundredth of
    [sc / tc * 100]. *)
Lemma rate_bounds (sc tc : Z) :
  0 <= sc <= tc -> 0 < tc ->
  exists q, rate sc tc = Fin q /\ (0 <= q <= 100)%Q /\
            (Qabs (inject_Z sc / inject_Z tc * 100 - q) <= 1 # 200)%Q.
Proof.
  intros [H0 H1] Ht.
  exists (inject_Z (rint (inject_Z sc / inject_Z tc * 100 * 100)) / 100)%Q.
  split; [apply rate_finite; lia|].
  assert (Htq : (0 < inject_Z tc)%Q).
  { change 0%Q with (inject_Z 0). now rewrite <- Zlt_Qlt. }
  assert (Hs0 : (0 <= inject_Z sc)%Q).
  { change 0%Q with (inject_Z 0). now rewrite <- Zle_Qle. }
  assert (Hs1 : (inject_Z sc <= inject_Z tc)%Q) by now rewrite <- Zle_Qle.
  set (x := (inject_Z sc / inject_Z tc)%Q).
  assert (Hx0 : (0 <= x)%Q) by (apply Qle_shift_div_l; [exact Htq | lra]).
  assert (Hx1 : (x <= 1)%Q) by (apply Qle_shift_div_r; [exact Htq | lra]).
  pose proof (rint_bounds (x * 100 * 100) 0 10000) as Hb.
  destruct (rint_nearest (x * 100 * 100)) as [Hn _].
  apply Qabs_Qle_condition in Hn.
  set (n := rint (x * 100 * 100)) in *.
  assert (Hn' : 0 <= n <= 10000).
  { apply Hb. change (inject_Z 0) with 0%Q.
    change (inject_Z 10000) with 10000%Q. lra. }
  destruct Hn' as [Hn0 Hn1].
  rewrite Zle_Qle in Hn0, Hn1.
  change (inject_Z 0) with 0%Q in Hn0.
  change (inject_Z 10000) with 10000%Q in Hn1.
  clear Hb. clearbody x n. revert Hn Hn0 Hn1.
  generalize (inject_Z n). intros m Hn Hn0 Hn1.
  unfold Qdiv. change (/ 100)%Q with (1 # 100)%Q.
  split; [|apply Qabs_Qle_condition]; lra.
Qed.

Section StatisticsFacts.

Context {A K : Type}.
Variable key_eq_dec : forall x y : K, {x = y} + {x <> y}.
Variable key_leb : K -> K -> bool.
Variable stroke_of : A -> Z.
Variable column : A -> option K.
Variable listed : list K.

Local Abbreviation group_of := (group key_eq_dec column).
Local Abbreviation stats_by_column :=
  (get_stats_by_column key_eq_dec key_leb stroke_of column listed).

Lemma count_negative (l : list A) :
  (forall r, In r l -> stroke_of r = 0 \/ stroke_of r = 1) ->
  Z.of_nat (List.length l)
  = Z.of_nat (List.length (filter (fun r => stroke_of r =? 1) l))
    + Z.of_nat (List.length (filter (fun r => stroke_of r =? 0) l)).
Proof.
  induction l as [|r l IH]; intros Hb; [reflexivity|].
  specialize (IH (fun r0 H => Hb r0 (or_intror H))).
  cbn [filter].
  destruct (Hb r (or_introl eq_refl)) as [E|E]; rewrite E;
    cbn [Z.eqb Pos.eqb List.length]; lia.
Qed.


(** X6.  The rows of [get_stats_by_column] carry distinct grouping values:
    one row for each value that some row of the table holds, and one
    for each listed category. *)
Theorem stats_one_row_per_value (df : list A) :
  let rows := get_stats_by_column key_eq_dec key_leb stroke_of column listed df in
  NoDup (map group_value rows) /\
  forall k, In k (map group_value rows) <->
            (exists r, In r df /\ column r = Some k) \/ In k listed.
Proof.
  assert (E : map group_value (stats_by_column df)
              = group_keys key_eq_dec key_leb column listed df).
  { unfold get_stats_by_column, groupby_agg. rewrite !map_map.
    cbn [derive group_value]. apply map_id. }
  cbv zeta. rewrite E. split; [apply group_keys_NoDup|].
  intros k. apply group_keys_In.
Qed.

Lemma insert_key_sorted (k : K) (l : list K) :
  (forall a b, key_leb a b = true \/ key_leb b a = true) ->
  (forall a b c, key_leb a b = true -> key_leb b c = true -> key_leb a c = true) ->
  StronglySorted (fun a b => key_leb a b = true) l ->
  StronglySorted (fun a b => key_leb a b = true) (insert_key key_leb k l).
Proof.
  intros Htot Htrans. induction 1 as [|y l Hs IH Hall]; simpl.
  - repeat constructor.
  - destruct (key_leb k y) eqn:E.
    + constructor; [now constructor|]. constructor; [exact E|].
      eapply Forall_impl; [|exact Hall]. intros z Hz. now apply Htrans with y.
    + assert (Hyk : key_leb y k = true).
      { destruct (Htot k y) as [H|H]; [congruence | exact H]. }
      constructor; [exact IH|].
      eapply Permutation_Forall;
        [symmetry; apply (insert_key_perm key_leb)|].
      now constructor.
Qed.

Lemma sort_keys_sorted (l : list K) :
  (forall a b, key_leb a b = true \/ key_leb b a = true) ->
  (forall a b c, key_leb a b = true -> key_leb b c = true -> key_leb a c = true) ->
  StronglySorted (fun a b => key_leb a b = true) (sort_keys key_leb l).
Proof.
  intros Htot Htrans. induction l as [|k l IH]; simpl; [constructor|].
  now apply insert_key_sorted.
Qed.

(** X7.  With grouping values compared by a total order, the rows of
    [get_stats_by_column] come in increasing order of their grouping
    value, whatever the order of the rows of the table. *)
Theorem stats_sorted_by_value (df : list A) :
  (forall a b, key_leb a b = true \/ key_leb b a = true) ->
  (forall a b c, key_leb a b = true -> key_leb b c = true -> key_leb a c = true) ->
  StronglySorted
    (fun a b => key_leb a b = true)
    (map group_value
       (get_stats_by_column key_eq_dec key_leb stroke_of column listed df)).
Proof.
  intros Htot Htrans.
  unfold get_stats_by_column, groupby_agg. rewrite !map_map.
  cbn [derive group_value]. rewrite map_id.
  now apply sort_keys_sorted.
Qed.

(** X8.  On a table with outcomes 0 or 1, every row of
    [get_stats_by_column] has counts [0 <= stroke_count <= total_count],
    its negative count is the number of rows of its group with outcome
    0, and its rate is a number between 0 and 100, or NaN when the
    total count is 0. *)
Theorem stats_row_bounds (df : list A) (row : AggregationRow K) :
  (forall r, In r df -> stroke_of r = 0 \/ stroke_of r = 1) ->
  In row (stats_by_column df) ->
  0 <= stroke_count row <= total_count row /\
  no_stroke_count row
  = Z.of_nat (List.length (filter (fun r => stroke_of r =? 0)
                                  (group_of (group_value row) df))) /\
  ((total_count row = 0 /\ stroke_rate row = NaN) \/
   (0 < total_count row /\
    exists q, stroke_rate row = Fin q /\ (0 <= q <= 100)%Q)).
Proof.
  intros Hb Hin.
  apply stats_by_column_In in Hin. destruct Hin as [_ E].
  set (g := group_of (group_value row) df) in *.
  assert (Hbg : forall r, In r g -> stroke_of r = 0 \/ stroke_of r = 1).
  { intros r Hr. apply group_In in Hr. now apply Hb. }
  pose proof (sum_stroke_counts_positive stroke_of g Hbg) as Hpos.
  pose proof (count_negative g Hbg) as Hneg.
  rewrite E.
  cbn [derive stroke_count total_count no_stroke_count stroke_rate].
  rewrite Hpos.
  split; [lia|]. split; [lia|].
  destruct g as [|r g'] eqn:Eg.
  - left. split; reflexivity.
  - right. split; [cbn [List.length]; lia|].
    destruct (rate_bounds
                (Z.of_nat (List.length (filter (fun r => stroke_of r =? 1) (r :: g'))))
                (Z.of_nat (List.length (r :: g'))))
      as (q & Hq & Hq01 & _); [lia | cbn [List.length]; lia|].
    exists q. split; [exact Hq | exact Hq01].
Qed.

End StatisticsFacts.


Lemma Z_leb_total (a b : Z) : (a <=? b) = true \/ (b <=? a) = true.
Proof. rewrite !Z.leb_le. lia. Qed.

Lemma Z_leb_trans (a b c : Z) :
  (a <=? b) = true -> (b <=? c) = true -> (a <=? c) = true.
Proof. rewrite !Z.leb_le. lia. Qed.

(** X7 on four rows grouped by [hypertension], whose flags come as 1, 0,
    1, 0: the rows of the summary are those of 0 and of 1, in this
    order. *)
Lemma stats_sorted_by_value_witness :
  map hypertension unsorted_flags = [1; 0; 1; 0] /\
  map group_value
    (get_stats_by_column Z.eq_dec Z.leb stroke by_hypertension []
       unsorted_flags) = [0; 1] /\
  StronglySorted (fun a b => (a <=? b) = true)
    (map group_value
       (get_stats_by_column Z.eq_dec Z.leb stroke by_hypertension []
          unsorted_flags)).
Proof.
  split; [reflexivity|]. split; [vm_compute; reflexivity|].
  apply (stats_sorted_by_value Z.eq_dec Z.leb stroke by_hypertension []
           unsorted_flags Z_leb_total Z_leb_trans).
Defined.

(** X8 on the row of the gender "Female" of the five
    rows. *)
Lemma stats_row_bounds_witness :
  let row := mkRow "Female" 2 2 0 (Fin (10000 # 100)) in
  In row (get_stats_by_column string_dec String.leb stroke by_gender [] five_rows) /\
  0 <= stroke_count row <= total_count row.
Proof.
  cbv zeta.
  assert (Hin : In (mkRow "Female" 2 2 0 (Fin (10000 # 100)))
                   (get_stats_by_column string_dec String.leb stroke by_gender []
                      five_rows)).
  { vm_compute. left. reflexivity. }
  split; [exact Hin|].
  destruct (stats_row_bounds string_dec String.leb stroke by_gender []
              five_rows _ five_rows_binary Hin) as (Hb & _).
  exact Hb.
Defined.

(** ** The risk-factor summary and the export *)

Lemma sum_no_stroke_counts {K : Type} (l : list (K * Z * Z)) :
  sum_Z (map no_stroke_count (map derive l))
  = sum_Z (map total_count (map derive l))
    - sum_Z (map stroke_count (map derive l)).
Proof.
  induction l as [|[[k s] c] l IH]; [reflexivity|].
  cbn [map derive no_stroke_count total_count stroke_count sum_Z fold_right].
  fold (sum_Z (map no_stroke_count (map derive l))).
  fold (sum_Z (map total_count (map derive l))).
  fold (sum_Z (map stroke_count (map derive l))).
  lia.
Qed.

Section PlainColumn.

Context {A K : Type}.
Variable key_eq_dec : forall x y : K, {x = y} + {x <> y}.
Variable key_leb : K -> K -> bool.
Variable stroke_of : A -> Z.
Variable column : A -> option K.
Variable listed : list K.

(** On a column that holds a value in every row the grouped counts add
    up to those of [get_stroke_stats]. *)
Lemma full_column_sums (df : list A) :
  (forall r, In r df -> column r <> None) ->
  let rows := get_stats_by_column key_eq_dec key_leb stroke_of column listed df in
  let s := get_stroke_stats stroke_of df in
  sum_Z (map total_count rows) = total_patients s /\
  sum_Z (map stroke_count rows) = stroke_cases s /\
  sum_Z (map no_stroke_count rows) = no_stroke_cases s.
Proof.
  intros Hkey rows s.
  assert (Hall : filter (has_key column) df = df).
  { apply filter_all_true. intros r Hr. unfold has_key.
    specialize (Hkey r Hr). now destruct (column r). }
  assert (Ht : sum_Z (map total_count rows) = total_patients s).
  { unfold rows. rewrite sum_total_counts, Hall. reflexivity. }
  assert (Hs : sum_Z (map stroke_count rows) = stroke_cases s).
  { unfold rows. rewrite sum_stroke_counts, Hall. reflexivity. }
  split; [exact Ht|]. split; [exact Hs|].
  unfold rows, get_stats_by_column in *.
  rewrite sum_no_stroke_counts, Ht, Hs. reflexivity.
Qed.

(** The grouped counts add up to those of [get_stroke_stats] on the rows
    that hold a value in the grouping column. *)
Lemma column_sums (df : list A) :
  let rows := get_stats_by_column key_eq_dec key_leb stroke_of column listed df in
  let s := get_stroke_stats stroke_of (filter (has_key column) df) in
  sum_Z (map total_count rows) = total_patients s /\
  sum_Z (map stroke_count rows) = stroke_cases s /\
  sum_Z (map no_stroke_count rows) = no_stroke_cases s.
Proof.
  intros rows s.
  assert (Ht : sum_Z (map total_count rows) = total_patients s).
  { unfold rows. rewrite sum_total_counts. reflexivity. }
  assert (Hs : sum_Z (map stroke_count rows) = stroke_cases s).
  { unfold rows. rewrite sum_stroke_counts. reflexivity. }
  split; [exact Ht|]. split; [exact Hs|].
  unfold rows, get_stats_by_column in *.
  rewrite sum_no_stroke_counts, Ht, Hs. reflexivity.
Qed.

End PlainColumn.

(** A row is in a group of a text column when its cell is not the
    missing marker. *)
Lemma has_key_text_cell (f : patient -> string) (r : patient) :
  has_key (fun r => text_cell (f r)) r = negb (f r =? EmptyString)%string.
Proof. unfold has_key, text_cell. now destruct (f r). Qed.

Lemma filter_has_key_text_cell (f : patient -> string) (df : list patient) :
  filter (has_key (fun r => text_cell (f r))) df
  = filter (fun r => negb (f r =? EmptyString)%string) df.
Proof. apply filter_ext. intros r. apply has_key_text_cell. Qed.

Lemma filter_all_present (f : patient -> string) (df : list patient) :
  (forall r, In r df -> f r <> EmptyString) ->
  filter (fun r => negb (f r =? EmptyString)%string) df = df.
Proof.
  intros H. apply filter_all_true. intros r Hr.
  destruct (f r =? EmptyString)%string eqn:E; [|reflexivity].
  apply String.eqb_eq in E. now apply H in Hr.
Qed.

(** X9.  [get_risk_factor_summary]: the tables by [hypertension] and by
    [heart_disease], integer columns, account for every row of the
    table once: their total, positive and negative counts add up to
    those of [get_stroke_stats].  The table by [smoking_status] accounts
    for the rows that hold a smoking status, and leaves out the rows in
    which it is missing: its counts add up to those of [get_stroke_stats]
    on the rows that hold one, which are those of the whole table when
    no row misses it. *)
Theorem risk_factor_summary_accounts_for_rows (df : list patient) :
  let summary := get_risk_factor_summary df in
  let s := get_stroke_stats stroke df in
  let present :=
    filter (fun r => negb (smoking_status r =? EmptyString)%string) df in
  let missing :=
    filter (fun r => (smoking_status r =? EmptyString)%string) df in
  let p := get_stroke_stats stroke present in
  (sum_Z (map total_count (summary_hypertension summary)) = total_patients s /\
   sum_Z (map stroke_count (summary_hypertension summary)) = stroke_cases s /\
   sum_Z (map no_stroke_count (summary_hypertension summary))
   = no_stroke_cases s) /\
  (sum_Z (map total_count (summary_heart_disease summary)) = total_patients s /\
   sum_Z (map stroke_count (summary_heart_disease summary)) = stroke_cases s /\
   sum_Z (map no_stroke_count (summary_heart_disease summary))
   = no_stroke_cases s) /\
  (sum_Z (map total_count (summary_smoking summary)) = total_patients p /\
   sum_Z (map stroke_count (summary_smoking summary)) = stroke_cases p /\
   sum_Z (map no_stroke_count (summary_smoking summary)) = no_stroke_cases p) /\
  sum_Z (map total_count (summary_smoking summary))
  = total_patients s - Z.of_nat (List.length missing) /\
  (forall row, In row (summary_smoking summary) ->
     group_value row <> EmptyString) /\
  ((forall r, In r df -> smoking_status r <> EmptyString) -> p = s).
Proof.
  cbv zeta. unfold get_risk_factor_summary.
  cbn [summary_hypertension summary_heart_disease summary_smoking].
  split; [apply full_column_sums; intros r _; discriminate|].
  split; [apply full_column_sums; intros r _; discriminate|].
  pose proof (column_sums string_dec String.leb stroke by_smoking_status [] df)
    as Hsum.
  cbv zeta in Hsum.
  assert (Hf : filter (has_key by_smoking_status) df
               = filter (fun r => negb (smoking_status r =? EmptyString)%string) df)
    by apply (filter_has_key_text_cell smoking_status).
  rewrite Hf in Hsum. clear Hf.
  split; [exact Hsum|].
  split.
  - destruct Hsum as [-> _]. cbn [total_patients get_stroke_stats].
    pose proof (filter_length (fun r => (smoking_status r =? EmptyString)%string) df)
      as Hlen.
    cbv beta in Hlen. lia.
  - split.
    + intros row Hin E.
      apply stats_by_column_In in Hin. destruct Hin as [Hk _].
      apply group_keys_In in Hk. rewrite E in Hk.
      destruct Hk as [(r & _ & Hr)|[]].
      unfold by_smoking_status, text_cell in Hr.
      destruct (smoking_status r); discriminate.
    + intros Hall. now rewrite filter_all_present.
Qed.

(** X9 on three rows of which one holds no smoking status: the table by
    hypertension counts three rows, the table by smoking status two. *)
Lemma risk_factor_summary_accounts_for_rows_witness :
  let summary := get_risk_factor_summary missing_smoking in
  sum_Z (map total_count (summary_hypertension summary)) = 3 /\
  sum_Z (map total_count (summary_smoking summary)) = 2 /\
  sum_Z (map stroke_count (summary_smoking summary)) = 1 /\
  map group_value (summary_smoking summary) = ["never smoked"; "smokes"].
Proof.
  cbv zeta.
  destruct (risk_factor_summary_accounts_for_rows missing_smoking)
    as ((Hh & _) & _ & (Ht & Hs & _) & _).
  split; [exact Hh|]. split; [exact Ht|]. split; [exact Hs|].
  vm_compute. reflexivity.
Defined.

Section CategoryOn.

Context {A : Type}.
Variable bmi_of : A -> cell.

Lemma get_bmi_category_on_ok (df : list A) :
  (forall r s, In r df -> bmi_of r <> Str s) ->
  get_bmi_category_on bmi_of df
  = Ok (map (fun r => (r, match categorize_bmi (bmi_of r) with
                          | Ok l => l
                          | Fail _ => EmptyString
                          end)) df) /\
  forall r, In r df -> exists l, categorize_bmi (bmi_of r) = Ok l.
Proof.
  unfold get_bmi_category_on.
  induction df as [|r df IH]; intros Hnum.
  - split; [reflexivity | intros r []].
  - destruct IH as [IH1 IH2].
    { intros r0 s Hin. apply Hnum. now right. }
    assert (Hr : exists l, categorize_bmi (bmi_of r) = Ok l).
    { destruct (categorize_bmi (bmi_of r)) as [l|e] eqn:E; [eauto|].
      apply categorize_bmi_fail in E. destruct E as [_ (s & Hs)].
      exfalso. exact (Hnum r s (or_introl eq_refl) Hs). }
    split.
    + destruct Hr as [l Hl]. cbn [mapM map]. rewrite Hl. cbn [bind].
      rewrite IH1. reflexivity.
    + intros r0 [<-|Hin]; [exact Hr | now apply IH2].
Qed.

Lemma get_bmi_category_on_text (df : list A) (r : A) (s : string) :
  In r df -> bmi_of r = Str s ->
  get_bmi_category_on bmi_of df = Fail TypeError.
Proof.
  unfold get_bmi_category_on.
  induction df as [|r0 df IH]; intros Hin Hs; [destruct Hin|].
  cbn [mapM].
  destruct (categorize_bmi (bmi_of r0)) as [l|e] eqn:E; cbn [bind].
  - destruct Hin as [->|Hin].
    + rewrite Hs in E. discriminate E.
    + rewrite (IH Hin Hs). reflexivity.
  - apply categorize_bmi_fail in E. now destruct E as [-> _].
Qed.

Lemma text_cell_dec (df : list A) :
  (exists r s, In r df /\ bmi_of r = Str s) \/
  (forall r s, In r df -> bmi_of r <> Str s).
Proof.
  induction df as [|r df IH].
  - right. intros r s [].
  - destruct (bmi_of r) as [x| |s] eqn:E.
    + destruct IH as [(r0 & s0 & H0 & H1)|IH].
      * left. exists r0, s0. split; [now right | exact H1].
      * right. intros r0 s0 [<-|H0]; [congruence | now apply IH].
    + destruct IH as [(r0 & s0 & H0 & H1)|IH].
      * left. exists r0, s0. split; [now right | exact H1].
      * right. intros r0 s0 [<-|H0]; [congruence | now apply IH].
    + left. exists r, s. split; [now left | exact E].
Qed.

End CategoryOn.

Lemma get_bmi_category_on_fst {A : Type} (bmi_of : A -> cell) (df : list A)
    (out : list (A * string)) :
  get_bmi_category_on bmi_of df = Ok out -> map fst out = df.
Proof.
  unfold get_bmi_category_on. revert out.
  induction df as [|r df IH]; intros out; cbn [mapM].
  - now intros [= <-].
  - destruct (categorize_bmi (bmi_of r)) as [l|e]; cbn [bind]; [|discriminate].
    destruct (mapM _ df) as [bs|e]; cbn [bind]; [|discriminate].
    intros [= <-]. cbn [map fst]. now rewrite (IH bs eq_refl).
Qed.

(** The frame [df_export] once [get_bmi_category] has returned. *)
Lemma export_frame (df : list patient)
    (out : list (patient * option string * string)) :
  get_bmi_category_on (fun p => bmi (fst p)) (get_age_groups df) = Ok out ->
  let df_export : list export_row :=
    get_glucose_category_on (fun p => avg_glucose_level (fst (fst p))) out in
  map patient_of df_export = df /\
  forall e, In e df_export ->
    age_group_of e = age_group (age (patient_of e)).
Proof.
  intros Hout df_export. apply get_bmi_category_on_fst in Hout.
  unfold df_export, get_glucose_category_on. split.
  - rewrite map_map. unfold patient_of. cbn [fst].
    rewrite <- (map_map fst fst), Hout. unfold get_age_groups.
    rewrite map_map. cbn [fst]. apply map_id.
  - intros e He. apply in_map_iff in He. destruct He as (p & <- & Hp).
    unfold age_group_of, patient_of. cbn [fst snd].
    assert (Hin : In (fst p) (get_age_groups df)).
    { rewrite <- Hout. now apply in_map. }
    unfold get_age_groups in Hin. apply in_map_iff in Hin.
    destruct Hin as (r & Hr & _). rewrite <- Hr. reflexivity.
Qed.

(** [get_age_groups] gives a row a label exactly when its age lies
    between 0 and 100. *)
Lemma age_group_defined (r : patient) :
  match age_group (age r) with Some _ => true | None => false end
  = age_in_range r.
Proof.
  unfold age_in_range. destruct (age r) as [a|]; [|reflexivity].
  destruct (Qle_bool 0 a) eqn:E0; cbn [andb].
  - destruct (Qle_bool a 100) eqn:E1.
    + apply Qle_bool_iff in E0, E1.
      destruct (age_range_cases a (conj E0 E1)) as [C|[C|[C|[C|[C|C]]]]].
      * now rewrite age_group_first_bin.
      * now rewrite age_group_bin2.
      * now rewrite age_group_bin3.
      * now rewrite age_group_bin4.
      * now rewrite age_group_bin5.
      * now rewrite age_group_last_bin.
    + apply Qle_bool_false in E1.
      rewrite age_group_out_of_range; [reflexivity | now right].
  - apply Qle_bool_false in E0.
    rewrite age_group_out_of_range; [reflexivity | now left].
Qed.

Lemma length_filter_map {X Y : Type} (f : Y -> bool) (g : X -> Y) (l : list X) :
  List.length (filter f (map g l)) = List.length (filter (fun x => f (g x)) l).
Proof. now rewrite filter_map_commute, length_map. Qed.

(** The frame [df_export] once [get_bmi_category] has returned: no [bmi]
    cell was text, and every row carries the labels of the three
    categorizers. *)
Lemma export_frame_labels (df : list patient)
    (out : list (patient * option string * string)) :
  get_bmi_category_on (fun p => bmi (fst p)) (get_age_groups df) = Ok out ->
  let df_export : list export_row :=
    get_glucose_category_on (fun p => avg_glucose_level (fst (fst p))) out in
  (forall r s, In r df -> bmi r <> Str s) /\
  map patient_of df_export = df /\
  forall e, In e df_export ->
    age_group_of e = age_group (age (patient_of e)) /\
    categorize_bmi (bmi (patient_of e)) = Ok (bmi_category_of e) /\
    glucose_category_of e
    = categorize_glucose (avg_glucose_level (patient_of e)).
Proof.
  intros Hout df_export.
  destruct (text_cell_dec bmi df) as [(r & s & Hin & Hs)|Hnum].
  { rewrite (get_bmi_category_on_text
               (fun p : patient * option string => bmi (fst p))
               (get_age_groups df) (r, age_group (age r)) s) in Hout.
    - discriminate Hout.
    - unfold get_age_groups. apply in_map_iff. now exists r.
    - exact Hs. }
  split; [exact Hnum|].
  destruct (get_bmi_category_on_ok (fun p : patient * option string => bmi (fst p))
              (get_age_groups df)) as [E Hl].
  { intros p s Hin. unfold get_age_groups in Hin. apply in_map_iff in Hin.
    destruct Hin as (r & <- & Hr). cbn [fst]. now apply Hnum. }
  rewrite E in Hout. injection Hout as <-.
  unfold df_export, get_glucose_category_on, get_age_groups.
  rewrite !map_map. split.
  - unfold patient_of. cbn [fst]. apply map_id.
  - intros e He. apply in_map_iff in He. destruct He as (r & <- & Hr).
    unfold age_group_of, bmi_category_of, glucose_category_of, patient_of.
    cbn [fst snd]. split; [reflexivity|]. split; [|reflexivity].
    destruct (Hl (r, age_group (age r))) as [l Hl'].
    { unfold get_age_groups. apply in_map_iff. now exists r. }
    cbn [fst] in Hl'. now rewrite Hl'.
Qed.

(** One step of a run of the export, in a hypothesis. *)
Ltac export_step fs H :=
  cbv beta iota zeta delta [io_bind mkdir of_result to_csv app] in H;
  match type of H with
  | context [mkdir_ok fs] => destruct (mkdir_ok fs) eqn:?
  | context [get_bmi_category_on ?f ?l] =>
    destruct (get_bmi_category_on f l) eqn:?
  | context [to_csv_ok fs ?n] => destruct (to_csv_ok fs n) eqn:?
  end;
  try discriminate H.

(** An export that ran to its end created the directory, went through
    [get_bmi_category] and wrote the ten files. *)
Lemma export_completes_inv (fs : file_system) (listed : list string)
    (df : list patient) (written : list (string * csv_table)) :
  export_for_tableau fs listed df [] = (written, inl tt) ->
  mkdir_ok fs = true /\
  (forall name, In name tableau_file_names -> to_csv_ok fs name = true) /\
  exists out,
    get_bmi_category_on (fun p => bmi (fst p)) (get_age_groups df) = Ok out /\
    written = exported_files listed df out.
Proof.
  unfold export_for_tableau. intros H.
  repeat export_step fs H.
  injection H as <-.
  split; [reflexivity|]. split.
  - intros name Hin. unfold tableau_file_names in Hin. cbn [In] in Hin.
    repeat (destruct Hin as [<-|Hin]; [assumption|]). destruct Hin.
  - eexists. split; reflexivity.
Qed.

(** An export stopped by the file system leaves the files written before
    the call that failed. *)
Lemma export_os_error_inv (fs : file_system) (listed : list string)
    (df : list patient) (written : list (string * csv_table)) :
  export_for_tableau fs listed df [] = (written, inr OSError) ->
  (mkdir_ok fs = false /\ written = []) \/
  (mkdir_ok fs = true /\
   exists name rest,
     tableau_file_names = (map fst written ++ name :: rest)%list /\
     to_csv_ok fs name = false).
Proof.
  unfold export_for_tableau. intros H.
  repeat export_step fs H;
    injection H as <-;
    first [ left; split; reflexivity
          | right; split; [reflexivity|];
            eexists _, _; split; [reflexivity | eassumption] ].
Qed.

(** X10.  The outcomes of [export_for_tableau].  The directory comes
    first: when [mkdir] fails, nothing is computed or written.  When the
    directory is there and some [bmi] cell is text, the export raises the
    [TypeError] of [get_bmi_category] before any file is written.  When a
    [to_csv] fails, the files written before it stay and the later ones
    are not written.  An export that runs to its end has written the ten
    files, in the order of the script; no [bmi] cell was text, and the
    main table holds the rows of the input, in order, each with the
    labels of the three categorizers. *)
Theorem export_for_tableau_outcome (fs : file_system) (listed : list string)
    (df : list patient) :
  let run := export_for_tableau fs listed df [] in
  (mkdir_ok fs = false -> run = ([], inr OSError)) /\
  (mkdir_ok fs = true -> (exists r s, In r df /\ bmi r = Str s) ->
   run = ([], inr (Raised TypeError))) /\
  (forall written, run = (written, inr OSError) ->
     (mkdir_ok fs = false /\ written = []) \/
     (mkdir_ok fs = true /\
      exists name rest,
        tableau_file_names = (map fst written ++ name :: rest)%list /\
        to_csv_ok fs name = false)) /\
  (forall written, run = (written, inl tt) ->
     mkdir_ok fs = true /\
     (forall name, In name tableau_file_names -> to_csv_ok fs name = true) /\
     (forall r s, In r df -> bmi r <> Str s) /\
     map fst written = tableau_file_names /\
     exists rows,
       hd_error written = Some ("stroke_data_tableau.csv", ExportTable rows) /\
       map patient_of rows = df /\
       forall e, In e rows ->
         age_group_of e = age_group (age (patient_of e)) /\
         categorize_bmi (bmi (patient_of e)) = Ok (bmi_category_of e) /\
         glucose_category_of e
         = categorize_glucose (avg_glucose_level (patient_of e))).
Proof.
  cbv zeta. split; [|split; [|split]].
  - intros Hm. unfold export_for_tableau, io_bind, mkdir.
    rewrite Hm. reflexivity.
  - intros Hm (r & s & Hin & Hs).
    unfold export_for_tableau, io_bind, mkdir, of_result.
    rewrite Hm.
    rewrite (get_bmi_category_on_text
               (fun p : patient * option string => bmi (fst p))
               (get_age_groups df) (r, age_group (age r)) s).
    + reflexivity.
    + unfold get_age_groups. apply in_map_iff. now exists r.
    + exact Hs.
  - intros written. apply export_os_error_inv.
  - intros written Hrun.
    destruct (export_completes_inv fs listed df written Hrun)
      as (Hm & Hcsv & out & Hout & ->).
    destruct (export_frame_labels df out Hout) as (Hnum & Hrows & Hlabels).
    split; [exact Hm|]. split; [exact Hcsv|]. split; [exact Hnum|].
    split; [reflexivity|].
    eexists. split; [reflexivity|]. split; [exact Hrows | exact Hlabels].
Qed.

(** X10 on examples: the five rows with a file system that takes every
    file; the table with a text [bmi]; the five rows with a file system
    that is full after two files. *)
Lemma export_for_tableau_outcome_witness :
  (exists written,
     export_for_tableau fs_ok [] five_rows [] = (written, inl tt) /\
     map fst written = tableau_file_names) /\
  export_for_tableau fs_ok [] text_bmi [] = ([], inr (Raised TypeError)) /\
  (exists written,
     export_for_tableau fs_full_after_two [] five_rows []
     = (written, inr OSError) /\
     map fst written = ["stroke_data_tableau.csv"; "age_group_tableau.csv"]).
Proof.
  split; [|split].
  - destruct (export_for_tableau fs_ok [] five_rows []) as [written [[]|e]] eqn:E;
      [|vm_compute in E; discriminate E].
    exists written. split; [reflexivity|].
    destruct (export_for_tableau_outcome fs_ok [] five_rows)
      as (_ & _ & _ & Hend).
    destruct (Hend written E) as (_ & _ & _ & Hnames & _). exact Hnames.
  - destruct (export_for_tableau_outcome fs_ok [] text_bmi)
      as (_ & Htext & _).
    apply Htext; [reflexivity|].
    exists (row_of 2 "Female" 61 (Str "N/A") 0), "N/A".
    split; [right; left; reflexivity | reflexivity].
  - eexists. split; vm_compute; reflexivity.
Defined.

(** The total counts of a summary by a text column add up to the number
    of rows that hold a value in the column. *)
Lemma text_column_total (f : patient -> string) (df : list patient) :
  sum_Z (map total_count
           (get_stats_by_column string_dec String.leb stroke
              (fun r => text_cell (f r)) [] df))
  = Z.of_nat (List.length
                (filter (fun r => negb (f r =? EmptyString)%string) df)).
Proof.
  rewrite sum_total_counts. now rewrite filter_has_key_text_cell.
Qed.

(** X11.  The summaries written by an export that ran to its end.  In the
    tables grouped by [hypertension] or [heart_disease], integer
    columns, and by [bmi_category] or [glucose_category], which the
    categorizers fill in every row, the total counts add up to the
    number of rows.  In a table grouped by a text column ([gender],
    [smoking_status], [work_type], [Residence_type]) they add up to the
    number of rows that hold a value in that column; in the table
    grouped by [age_group], to the number of rows whose age lies between
    0 and 100.  The other rows are in no group. *)
Theorem export_summaries_account_for_rows
    (fs : file_system) (listed : list string) (df : list patient)
    (written : list (string * csv_table)) :
  export_for_tableau fs listed df [] = (written, inl tt) ->
  let n := Z.of_nat (List.length df) in
  let holding (f : patient -> string) :=
    Z.of_nat (List.length
                (filter (fun r => negb (f r =? EmptyString)%string) df)) in
  exists main age_summary gender_summary hyper_summary heart_summary
         smoking_summary work_summary residence_summary bmi_summary
         glucose_summary,
    written
    = [ ("stroke_data_tableau.csv", ExportTable main);
        ("age_group_tableau.csv", TextSummary age_summary);
        ("gender_tableau.csv", TextSummary gender_summary);
        ("hypertension_tableau.csv", FlagSummary hyper_summary);
        ("heart_disease_tableau.csv", FlagSummary heart_summary);
        ("smoking_tableau.csv", TextSummary smoking_summary);
        ("work_type_tableau.csv", TextSummary work_summary);
        ("residence_tableau.csv", TextSummary residence_summary);
        ("bmi_category_tableau.csv", TextSummary bmi_summary);
        ("glucose_category_tableau.csv", TextSummary glucose_summary) ] /\
    Z.of_nat (List.length main) = n /\
    sum_Z (map total_count hyper_summary) = n /\
    sum_Z (map total_count heart_summary) = n /\
    sum_Z (map total_count bmi_summary) = n /\
    sum_Z (map total_count glucose_summary) = n /\
    sum_Z (map total_count gender_summary) = holding gender /\
    sum_Z (map total_count smoking_summary) = holding smoking_status /\
    sum_Z (map total_count work_summary) = holding work_type /\
    sum_Z (map total_count residence_summary) = holding Residence_type /\
    sum_Z (map total_count age_summary)
    = Z.of_nat (List.length (filter age_in_range df)).
Proof.
  intros Hrun n holding.
  destruct (export_completes_inv fs listed df written Hrun)
    as (_ & _ & out & Hout & ->).
  destruct (export_frame df out Hout) as [Hrows Hage].
  unfold exported_files.
  set (df_export :=
         get_glucose_category_on
           (fun p : patient * option string * string =>
              avg_glucose_level (fst (fst p))) out : list export_row) in *.
  do 10 eexists. split; [reflexivity|].
  assert (Hlen : Z.of_nat (List.length df_export) = n).
  { unfold n. now rewrite <- Hrows, length_map. }
  assert (Hplain : forall (A K : Type) (dec : forall x y : K, {x = y} + {x <> y})
                     (leb : K -> K -> bool) (st : A -> Z) (col : A -> option K)
                     (l : list A),
             (forall r, col r <> None) ->
             sum_Z (map total_count (get_stats_by_column dec leb st col [] l))
             = Z.of_nat (List.length l)).
  { intros A K dec leb st col l Hcol.
    rewrite sum_total_counts. f_equal. f_equal.
    apply filter_all_true. intros r _. unfold has_key.
    specialize (Hcol r). now destruct (col r). }
  split; [exact Hlen|].
  split; [apply Hplain; intros r; discriminate|].
  split; [apply Hplain; intros r; discriminate|].
  split; [rewrite Hplain by (intros r; discriminate); exact Hlen|].
  split; [rewrite Hplain by (intros r; discriminate); exact Hlen|].
  split; [apply (text_column_total gender)|].
  split; [apply (text_column_total smoking_status)|].
  split; [apply (text_column_total work_type)|].
  split; [apply (text_column_total Residence_type)|].
  rewrite sum_total_counts. f_equal.
  rewrite <- Hrows, length_filter_map. f_equal.
  apply filter_ext_on. intros e He. unfold has_key.
  rewrite (Hage e He). apply age_group_defined.
Qed.

(** X11 on four rows, of which two hold no gender, one of these no
    smoking status either, and one has the age 150: the table by
    hypertension counts four rows, the table by gender two, the table by
    smoking status three and the table by age group three. *)
Lemma export_summaries_account_for_rows_witness :
  exists written age_summary gender_summary hyper_summary smoking_summary,
    export_for_tableau fs_ok [] missing_text_cells [] = (written, inl tt) /\
    nth_error written 1 = Some ("age_group_tableau.csv", TextSummary age_summary) /\
    nth_error written 2 = Some ("gender_tableau.csv", TextSummary gender_summary) /\
    nth_error written 3
    = Some ("hypertension_tableau.csv", FlagSummary hyper_summary) /\
    nth_error written 5
    = Some ("smoking_tableau.csv", TextSummary smoking_summary) /\
    sum_Z (map total_count hyper_summary) = 4 /\
    sum_Z (map total_count gender_summary) = 2 /\
    sum_Z (map total_count smoking_summary) = 3 /\
    sum_Z (map total_count age_summary) = 3.
Proof.
  destruct (export_for_tableau fs_ok [] missing_text_cells [])
    as [written [[]|e]] eqn:E; [|vm_compute in E; discriminate E].
  destruct (export_summaries_account_for_rows fs_ok [] missing_text_cells
              written E)
    as (main & age_summary & gender_summary & hyper_summary & heart_summary
        & smoking_summary & work_summary & residence_summary & bmi_summary
        & glucose_summary & -> & _ & Hh & _ & _ & _ & Hg & Hs & _ & _ & Ha).
  eexists. exists age_summary, gender_summary, hyper_summary, smoking_summary.
  split; [reflexivity|].
  repeat (split; [reflexivity|]).
  split; [exact Hh|]. split; [exact Hg|]. split; [exact Hs | exact Ha].
Defined.

(** ** The data behind the charts *)

Section ChartFacts.

Context {A K : Type}.
Variable key_eq_dec : forall x y : K, {x = y} + {x <> y}.
Variable key_leb : K -> K -> bool.
Variable stroke_of : A -> Z.
Variable column : A -> option K.
Variable listed : list K.

Local Abbreviation group_of := (group key_eq_dec column).
Local Abbreviation frame :=
  (stroke_rate_frame key_eq_dec key_leb stroke_of column listed).
Local Abbreviation stats_by_column :=
  (get_stats_by_column key_eq_dec key_leb stroke_of column listed).



End ChartFacts.


(** *** Charts by category *)

Lemma category_code_inj (order : list string) (x y : string) :
  In x order -> In y order ->
  category_code order x = category_code order y -> x = y.
Proof.
  induction order as [|c cs IH]; intros Hx Hy; [destruct Hx|].
  cbn [category_code].
  destruct (String.eqb_spec x c) as [->|Hxc];
    destruct (String.eqb_spec y c) as [->|Hyc]; try discriminate; auto.
  intros [= E]. apply IH; auto.
  - destruct Hx as [<-|Hx]; [contradiction | exact Hx].
  - destruct Hy as [<-|Hy]; [contradiction | exact Hy].
Qed.

Lemma StronglySorted_impl_in {X : Type} (R R' : X -> X -> Prop) (l : list X) :
  (forall a b, In a l -> In b l -> R a b -> R' a b) ->
  StronglySorted R l -> StronglySorted R' l.
Proof.
  intros Himp Hs. induction Hs as [|a l Hs IH Hall]; [constructor|].
  constructor.
  - apply IH. intros x y Hx Hy. apply Himp; now right.
  - rewrite Forall_forall in Hall |- *. intros b Hb.
    apply Himp; [now left | now right | now apply Hall].
Qed.

Lemma order_sorted_by_code (order : list string) :
  NoDup order ->
  StronglySorted
    (fun a b => (category_code order a < category_code order b)%nat) order.
Proof.
  induction order as [|c cs IH]; intros Hnd; [constructor|].
  inversion Hnd as [|? ? Hnotin Hnd']; subst.
  assert (Hne : forall x, In x cs -> (x =? c)%string = false).
  { intros x Hx. apply String.eqb_neq. intros ->. contradiction. }
  constructor.
  - apply (StronglySorted_impl_in
             (fun a b => (category_code cs a < category_code cs b)%nat)).
    + intros a b Ha Hb Hab. cbn [category_code].
      rewrite (Hne a Ha), (Hne b Hb). lia.
    + now apply IH.
  - rewrite Forall_forall. intros b Hb. cbn [category_code].
    rewrite String.eqb_refl, (Hne b Hb). lia.
Qed.

Lemma StronglySorted_filter {X : Type} (R : X -> X -> Prop) (f : X -> bool)
    (l : list X) :
  StronglySorted R l -> StronglySorted R (filter f l).
Proof.
  induction 1 as [|a l Hs IH Hall]; simpl; [constructor|].
  destruct (f a); [|exact IH].
  constructor; [exact IH|].
  rewrite Forall_forall in Hall |- *. intros b Hb.
  apply filter_In in Hb. now apply Hall.
Qed.

(** Two lists in strictly increasing order with the same elements are
    equal. *)
Lemma strictly_sorted_unique {X : Type} (code : X -> nat) (l1 l2 : list X) :
  StronglySorted (fun a b => (code a < code b)%nat) l1 ->
  StronglySorted (fun a b => (code a < code b)%nat) l2 ->
  (forall x, In x l1 <-> In x l2) ->
  l1 = l2.
Proof.
  intros H1. revert l2.
  induction H1 as [|a l1 Hs1 IH Hall1]; intros l2 H2 Hmem.
  - destruct l2 as [|b l2]; [reflexivity|].
    exfalso. apply (Hmem b). now left.
  - destruct H2 as [|b l2 Hs2 Hall2].
    + exfalso. apply (Hmem a). now left.
    + rewrite Forall_forall in Hall1, Hall2.
      assert (Hab : a = b).
      { destruct (proj1 (Hmem a) (or_introl eq_refl)) as [E|Ha]; [now symmetry|].
        destruct (proj2 (Hmem b) (or_introl eq_refl)) as [E|Hb]; [exact E|].
        specialize (Hall1 b Hb). specialize (Hall2 a Ha). lia. }
      subst b. f_equal. apply IH; [exact Hs2|].
      intros x. split; intros Hx.
      * destruct (proj1 (Hmem x) (or_intror Hx)) as [E|Hx']; [|exact Hx'].
        subst x. specialize (Hall1 a Hx). lia.
      * destruct (proj2 (Hmem x) (or_intror Hx)) as [E|Hx']; [|exact Hx'].
        subst x. specialize (Hall2 a Hx). lia.
Qed.

Lemma map_insert_key {X Y : Type} (f : X -> Y) (leb : Y -> Y -> bool)
    (x : X) (l : list X) :
  map f (insert_key (fun a b => leb (f a) (f b)) x l)
  = insert_key leb (f x) (map f l).
Proof.
  induction l as [|y l IH]; [reflexivity|]. cbn [insert_key map].
  destruct (leb (f x) (f y)); cbn [map]; [reflexivity | now rewrite IH].
Qed.

Lemma map_sort_keys {X Y : Type} (f : X -> Y) (leb : Y -> Y -> bool)
    (l : list X) :
  map f (sort_keys (fun a b => leb (f a) (f b)) l)
  = sort_keys leb (map f l).
Proof.
  induction l as [|x l IH]; [reflexivity|]. cbn [sort_keys map].
  now rewrite map_insert_key, IH.
Qed.

Lemma stroke_rate_frame_values {A K : Type}
    (key_eq_dec : forall x y : K, {x = y} + {x <> y})
    (key_leb : K -> K -> bool) (stroke_of : A -> Z) (column : A -> option K)
    (listed : list K) (df : list A) :
  map bar_value (stroke_rate_frame key_eq_dec key_leb stroke_of column listed df)
  = group_keys key_eq_dec key_leb column listed df.
Proof.
  unfold stroke_rate_frame, groupby_agg. rewrite !map_map.
  erewrite map_ext; [apply map_id|]. intros k. reflexivity.
Qed.

Section CategoryCharts.

Context {A : Type}.
Variable order : list string.
Variable stroke_of : A -> Z.
Variable column : A -> option string.

(** Whether some row of the table carries the label. *)
Local Abbreviation present df c :=
  (existsb (fun r => match column r with
                     | Some v => (v =? c)%string
                     | None => false
                     end) df).

Lemma isin_In (x : option string) :
  isin order x = true <-> exists v, x = Some v /\ In v order.
Proof.
  destruct x as [v|]; cbn [isin].
  - rewrite existsb_exists. split.
    + intros (c & Hc & E). apply String.eqb_eq in E. subst c. eauto.
    + intros (v' & [= <-] & Hv). exists v. split; [exact Hv|].
      apply String.eqb_refl.
  - split; [discriminate | intros (v & H & _); discriminate].
Qed.

Lemma present_In (df : list A) (c : string) :
  present df c = true <-> exists r, In r df /\ column r = Some c.
Proof.
  rewrite existsb_exists. split.
  - intros (r & Hr & E). exists r. split; [exact Hr|].
    destruct (column r) as [v|]; [|discriminate].
    apply String.eqb_eq in E. now subst.
  - intros (r & Hr & E). exists r. split; [exact Hr|].
    rewrite E. apply String.eqb_refl.
Qed.

Lemma code_leb_total (a b : string) :
  (category_code order a <=? category_code order b)%nat = true \/
  (category_code order b <=? category_code order a)%nat = true.
Proof. rewrite !Nat.leb_le. lia. Qed.

Lemma code_leb_trans (a b c : string) :
  (category_code order a <=? category_code order b)%nat = true ->
  (category_code order b <=? category_code order c)%nat = true ->
  (category_code order a <=? category_code order c)%nat = true.
Proof. rewrite !Nat.leb_le. lia. Qed.

(** The bars drawn by category come in the order of the categories, one
    bar for each category that some row of the table carries; rows with
    another label, or without one, are left out. *)
Lemma category_rate_frame_values (df : list A) :
  NoDup order ->
  map bar_value (category_rate_frame order stroke_of column df)
  = filter (fun c => present df c) order.
Proof.
  intros Hnd. unfold category_rate_frame, category_leb.
  rewrite (map_sort_keys bar_value
             (fun a b => (category_code order a <=? category_code order b)%nat)).
  rewrite stroke_rate_frame_values.
  set (df_cat := filter (fun r => isin order (column r)) df).
  set (G := group_keys string_dec String.leb column [] df_cat).
  assert (HG : forall k, In k G <-> In k order /\ present df k = true).
  { intros k. unfold G. rewrite group_keys_In, present_In. split.
    - intros [(r & Hr & Hk)|[]]. unfold df_cat in Hr.
      apply filter_In in Hr. destruct Hr as [Hr Hi].
      apply isin_In in Hi. destruct Hi as (v & Hv & Hin).
      assert (v = k) by congruence. subst v. split; [exact Hin | eauto].
    - intros [Hin (r & Hr & Hk)]. left. exists r. split; [|exact Hk].
      unfold df_cat. apply filter_In. split; [exact Hr|].
      apply isin_In. eauto. }
  set (L := sort_keys _ G).
  assert (HL : forall k, In k L <-> In k G).
  { intros k. unfold L. split; apply Permutation_in;
      [apply sort_keys_perm | symmetry; apply sort_keys_perm]. }
  apply (strictly_sorted_unique (category_code order)).
  - assert (Hle : StronglySorted
                    (fun a b => (category_code order a <=? category_code order b)%nat
                                = true) L).
    { apply sort_keys_sorted; [apply code_leb_total | apply code_leb_trans]. }
    assert (HndL : NoDup L).
    { unfold L. eapply Permutation_NoDup; [symmetry; apply sort_keys_perm|].
      apply group_keys_NoDup. }
    assert (Hord : forall k, In k L -> In k order).
    { intros k Hk. apply HL, HG in Hk. tauto. }
    clearbody L. clear HL.
    induction Hle as [|a l Hs IH Hall]; [constructor|].
    inversion HndL as [|? ? Hnotin Hnd']; subst.
    constructor.
    + apply IH; [exact Hnd' | intros k Hk; apply Hord; now right].
    + rewrite Forall_forall in Hall |- *. intros b Hb.
      specialize (Hall b Hb). apply Nat.leb_le in Hall.
      assert (Hne : category_code order a <> category_code order b).
      { intros E. apply category_code_inj in E.
        - subst b. contradiction.
        - apply Hord. now left.
        - apply Hord. now right. }
      lia.
  - apply StronglySorted_filter. now apply order_sorted_by_code.
  - intros k. rewrite HL, HG, filter_In. tauto.
Qed.

End CategoryCharts.

(** X13.  [plot_bmi_analysis] and [plot_glucose_analysis]: the bars come in
    the fixed order of the categories (Underweight, Normal, Overweight,
    Obese; Normal, Pre-diabetic, Diabetic), one bar for each category
    that some row of the table carries, whatever the order of the rows;
    a row with another label, or without a label, is left out. *)
Theorem category_charts_in_category_order
    {A : Type} (stroke_of : A -> Z) (column : A -> option string)
    (df : list A) :
  let present := fun c =>
    existsb (fun r => match column r with
                      | Some v => (v =? c)%string
                      | None => false
                      end) df in
  map bar_value (plot_bmi_frame stroke_of column df)
  = filter present bmi_order /\
  map bar_value (plot_glucose_frame stroke_of column df)
  = filter present glucose_order.
Proof.
  cbv zeta. split; apply category_rate_frame_values.
  - unfold bmi_order. repeat constructor; simpl; intuition discriminate.
  - unfold glucose_order. repeat constructor; simpl; intuition discriminate.
Qed.

Lemma sum_Z_perm (l l' : list Z) : Permutation l l' -> sum_Z l = sum_Z l'.
Proof.
  unfold sum_Z.
  induction 1 as [|x l l' _ IH|x y l|l l' l'' _ IH1 _ IH2]; simpl; lia.
Qed.

Lemma category_rate_frame_counts {A : Type} (order : list string)
    (stroke_of : A -> Z) (column : A -> option string) (df : list A) :
  (forall r, In r df -> isin order (column r) = true) ->
  sum_Z (map bar_count (category_rate_frame order stroke_of column df))
  = Z.of_nat (List.length df).
Proof.
  intros Hall. unfold category_rate_frame.
  rewrite (filter_all_true _ df Hall).
  rewrite (sum_Z_perm _ _ (Permutation_map bar_count
                             (sort_keys_perm (category_leb order) _))).
  transitivity
    (sum_Z (map total_count
              (get_stats_by_column string_dec String.leb stroke_of column [] df))).
  - f_equal. unfold stroke_rate_frame, get_stats_by_column.
    rewrite !map_map. apply map_ext. intros [[k s] c]. reflexivity.
  - rewrite sum_total_counts. f_equal. f_equal.
    apply filter_all_true. intros r Hr. specialize (Hall r Hr).
    unfold has_key. destruct (column r); [reflexivity | discriminate Hall].
Qed.

(** X14.  The categorizers and the charts fit: the labels made by
    [get_bmi_category] and [get_glucose_category] are all among those
    that [plot_bmi_analysis] and [plot_glucose_analysis] keep, so the
    counts of the bars add up to the number of rows of the table. *)
Theorem category_charts_account_for_rows (df : list patient) :
  (forall out, get_bmi_category df = Ok out ->
     sum_Z (map bar_count
              (plot_bmi_frame (fun p => stroke (fst p)) (fun p => Some (snd p))
                 out))
     = Z.of_nat (List.length df)) /\
  sum_Z (map bar_count
           (plot_glucose_frame (fun p => stroke (fst p))
              (fun p => Some (snd p)) (get_glucose_category df)))
  = Z.of_nat (List.length df).
Proof.
  split.
  - intros out Hout.
    destruct (get_bmi_category_numeric df) as (out' & H1 & H2 & H3).
    { intros r s Hin Hs.
      exact (get_bmi_category_text_not_ok df r s Hin Hs out Hout). }
    assert (out' = out) by congruence. subst out'.
    unfold plot_bmi_frame. rewrite category_rate_frame_counts.
    + now rewrite <- H2, length_map.
    + intros [r l] Hin. cbn [snd].
      pose proof (categorize_bmi_labels (bmi r) l (H3 r l Hin)) as Hl.
      simpl in Hl. destruct Hl as [<-|[<-|[<-|[<-|[]]]]]; reflexivity.
  - unfold plot_glucose_frame. rewrite category_rate_frame_counts.
    + unfold get_glucose_category. now rewrite length_map.
    + intros [r l] Hin. cbn [snd]. unfold get_glucose_category in Hin.
      apply in_map_iff in Hin. destruct Hin as (r0 & [= <- <-] & _).
      unfold categorize_glucose.
      destruct (num_lt _ 100); [reflexivity|].
      destruct (num_lt _ 126); reflexivity.
Qed.

(** *** The chart of the outcomes *)

Lemma distinct_In (col : list Z) (v : Z) : In v (distinct col) <-> In v col.
Proof.
  induction col as [|x col IH]; [reflexivity|]. cbn [distinct].
  split.
  - intros [<-|H]; [now left|]. apply filter_In in H. right. now apply IH.
  - intros [<-|H]; [now left|].
    destruct (Z.eq_dec v x) as [->|Hne]; [now left|]. right.
    apply filter_In. split; [now apply IH|].
    apply negb_true_iff, Z.eqb_neq, Hne.
Qed.

Lemma distinct_NoDup (col : list Z) : NoDup (distinct col).
Proof.
  induction col as [|x col IH]; [constructor|]. cbn [distinct].
  constructor.
  - intros H. apply filter_In in H. destruct H as [_ H].
    rewrite Z.eqb_refl in H. discriminate.
  - now apply NoDup_filter.
Qed.

(** A list without repetition that holds 0 and 1 and nothing else. *)
Lemma two_values_list (l : list Z) :
  NoDup l -> (forall v, In v l -> v = 0 \/ v = 1) -> In 0 l -> In 1 l ->
  l = [0; 1] \/ l = [1; 0].
Proof.
  intros Hnd Hb' H0 H1.
  destruct l as [|a [|b [|c l]]].
  - destruct H0.
  - destruct H0 as [E0|[]]. destruct H1 as [E1|[]]. lia.
  - inversion Hnd as [|? ? Hab _]; subst.
    destruct (Hb' a (or_introl eq_refl)) as [->| ->];
      destruct (Hb' b (or_intror (or_introl eq_refl))) as [->| ->]; auto;
      exfalso; apply Hab; now left.
  - exfalso.
    inversion Hnd as [|? ? Ha Hnd1]; subst.
    inversion Hnd1 as [|? ? Hbc _]; subst.
    destruct (Hb' a (or_introl eq_refl)) as [->| ->];
      destruct (Hb' b (or_intror (or_introl eq_refl))) as [->| ->];
      destruct (Hb' c (or_intror (or_intror (or_introl eq_refl)))) as [->| ->];
      try (apply Ha; simpl; tauto); apply Hbc; simpl; tauto.
Qed.

(** The distinct values of a column of outcomes in which both 0 and 1
    occur. *)
Lemma distinct_binary (col : list Z) :
  (forall v, In v col -> v = 0 \/ v = 1) -> In 0 col -> In 1 col ->
  distinct col = [0; 1] \/ distinct col = [1; 0].
Proof.
  intros Hb H0 H1. apply two_values_list.
  - apply distinct_NoDup.
  - intros v Hv. apply Hb. now apply distinct_In.
  - now apply distinct_In.
  - now apply distinct_In.
Qed.

Lemma count_value_column {A : Type} (stroke_of : A -> Z) (v : Z) (df : list A) :
  List.length (filter (Z.eqb v) (map stroke_of df))
  = List.length (filter (fun r => stroke_of r =? v) df).
Proof.
  rewrite length_filter_map. f_equal. apply filter_ext.
  intros r. apply Z.eqb_sym.
Qed.

(** X15.  [plot_stroke_distribution] attaches its labels by rank of frequency,
    not by outcome: [value_counts] puts the more frequent outcome first,
    and the first bar is the one labelled "No Stroke".  On a table with
    outcomes 0 and 1 both present, the bar "No Stroke" carries the count
    of the rows without a stroke when they are the majority, and the
    count of the rows with a stroke when these are the majority. *)
Theorem stroke_distribution_labels_by_rank
    {A : Type} (stroke_of : A -> Z) (df : list A) :
  (forall r, In r df -> stroke_of r = 0 \/ stroke_of r = 1) ->
  let negative := Z.of_nat (List.length (filter (fun r => stroke_of r =? 0) df)) in
  let positive := Z.of_nat (List.length (filter (fun r => stroke_of r =? 1) df)) in
  let stroke_counts := value_counts (map stroke_of df) in
  0 < negative -> 0 < positive ->
  (positive < negative ->
   stroke_counts = [(0, negative); (1, positive)] /\
   combine stroke_distribution_labels (map snd stroke_counts)
   = [("No Stroke", negative); ("Stroke", positive)]) /\
  (negative < positive ->
   stroke_counts = [(1, positive); (0, negative)] /\
   combine stroke_distribution_labels (map snd stroke_counts)
   = [("No Stroke", positive); ("Stroke", negative)]).
Proof.
  intros Hb negative positive stroke_counts Hn Hp.
  assert (Hcol : forall v, In v (map stroke_of df) -> v = 0 \/ v = 1).
  { intros v Hv. apply in_map_iff in Hv. destruct Hv as (r & <- & Hr).
    now apply Hb. }
  assert (Hmem : forall v, 0 < Z.of_nat (List.length
                                 (filter (fun r => stroke_of r =? v) df)) ->
                           In v (map stroke_of df)).
  { intros v Hv.
    destruct (filter (fun r => stroke_of r =? v) df) as [|r l] eqn:E;
      [simpl in Hv; lia|].
    assert (Hr : In r (filter (fun r => stroke_of r =? v) df))
      by (rewrite E; now left).
    apply filter_In in Hr. destruct Hr as [Hr Hv'].
    apply Z.eqb_eq in Hv'. subst v. now apply in_map. }
  assert (Hd := distinct_binary (map stroke_of df) Hcol (Hmem 0 Hn) (Hmem 1 Hp)).
  unfold stroke_counts, value_counts.
  split; intros Hlt; destruct Hd as [-> | ->];
    cbn [map sort_keys insert_key snd];
    rewrite !count_value_column; fold negative positive;
    repeat match goal with
    | |- context [?a <=? ?b] =>
      let E := fresh "E" in
      destruct (a <=? b) eqn:E;
      [apply Z.leb_le in E | apply Z.leb_gt in E]
    end; try lia; split; reflexivity.
Qed.

(** X15 on a table with two positive
    rows and one negative row. *)
Lemma stroke_distribution_labels_by_rank_witness :
  combine stroke_distribution_labels
          (map snd (value_counts (map stroke mostly_positive)))
  = [("No Stroke", 2); ("Stroke", 1)].
Proof.
  assert (Hb : forall r, In r mostly_positive -> stroke r = 0 \/ stroke r = 1).
  { simpl. intros r [<-|[<-|[<-|[]]]]; auto. }
  destruct (stroke_distribution_labels_by_rank stroke mostly_positive Hb)
    as [_ H]; [reflexivity | reflexivity |].
  destruct H as [_ H]; [reflexivity | exact H].
Defined.

(** *** The charts of the medical conditions *)

(** A chart grouped by a column of flags 0 and 1, both present: the
    bars come by value, the flag 0 first. *)
Lemma flag_frame_values {A : Type} (stroke_of : A -> Z) (flag : A -> Z)
    (df : list A) :
  (forall r, In r df -> flag r = 0 \/ flag r = 1) ->
  (exists r, In r df /\ flag r = 0) ->
  (exists r, In r df /\ flag r = 1) ->
  map bar_value
      (stroke_rate_frame Z.eq_dec Z.leb stroke_of (fun r => Some (flag r)) [] df)
  = [0; 1].
Proof.
  intros Hb (r0 & Hr0 & E0) (r1 & Hr1 & E1).
  rewrite stroke_rate_frame_values.
  set (L := group_keys Z.eq_dec Z.leb (fun r => Some (flag r)) [] df).
  assert (HL : forall v, In v L <-> exists r, In r df /\ flag r = v).
  { intros v. unfold L. rewrite group_keys_In. split.
    - intros [(r & Hr & [= E])|[]]. eauto.
    - intros (r & Hr & E). left. exists r. split; [exact Hr | now rewrite E]. }
  assert (Hs : StronglySorted (fun a b => (a <=? b) = true) L).
  { apply sort_keys_sorted; [apply Z_leb_total | apply Z_leb_trans]. }
  destruct (two_values_list L) as [E|E].
  - apply group_keys_NoDup.
  - intros v Hv. apply HL in Hv. destruct Hv as (r & Hr & <-). now apply Hb.
  - apply HL. eauto.
  - apply HL. eauto.
  - exact E.
  - exfalso. rewrite E in Hs. inversion Hs as [|? ? _ Hall]; subst.
    inversion Hall as [|? ? H _]; subst. discriminate H.
Qed.

(** X16.  [plot_medical_conditions] attaches its labels by position, and
    [groupby] gives the bars by increasing value: on a table whose
    [hypertension] and [heart_disease] columns hold 0 and 1, both
    present, the bar labelled "No Hypertension" is that of the value 0
    and the bar labelled "Hypertension" that of the value 1, and
    likewise for the heart disease, whichever value is the more
    frequent. *)
Theorem medical_condition_labels_by_value (df : list patient) :
  (forall r, In r df ->
     (hypertension r = 0 \/ hypertension r = 1) /\
     (heart_disease r = 0 \/ heart_disease r = 1)) ->
  (exists r, In r df /\ hypertension r = 0) ->
  (exists r, In r df /\ hypertension r = 1) ->
  (exists r, In r df /\ heart_disease r = 0) ->
  (exists r, In r df /\ heart_disease r = 1) ->
  combine hypertension_labels
    (map bar_value
       (stroke_rate_frame Z.eq_dec Z.leb stroke by_hypertension [] df))
  = [("No Hypertension", 0); ("Hypertension", 1)] /\
  combine heart_disease_labels
    (map bar_value
       (stroke_rate_frame Z.eq_dec Z.leb stroke by_heart_disease [] df))
  = [("No Heart Disease", 0); ("Heart Disease", 1)].
Proof.
  intros Hb H0 H1 G0 G1. unfold by_hypertension, by_heart_disease.
  rewrite (flag_frame_values stroke hypertension df), 
          (flag_frame_values stroke heart_disease df); auto.
  - intros r Hr. now apply Hb.
  - intros r Hr. now apply Hb.
Qed.

(** X16 on a table with both values in
    both columns. *)
Lemma medical_condition_labels_by_value_witness :
  combine hypertension_labels
    (map bar_value
       (stroke_rate_frame Z.eq_dec Z.leb stroke by_hypertension []
          both_conditions))
  = [("No Hypertension", 0); ("Hypertension", 1)].
Proof.
  destruct (medical_condition_labels_by_value both_conditions) as [H _].
  - unfold both_conditions. intros r [<-|[<-|[]]]; simpl; auto.
  - exists (set_flags (row_of 1 "Male" 70 (Num 30) 1) 0 1).
    split; [simpl; auto | reflexivity].
  - exists (set_flags (row_of 2 "Female" 40 (Num 22) 0) 1 0).
    split; [simpl; auto | reflexivity].
  - exists (set_flags (row_of 2 "Female" 40 (Num 22) 0) 1 0).
    split; [simpl; auto | reflexivity].
  - exists (set_flags (row_of 1 "Male" 70 (Num 30) 1) 0 1).
    split; [simpl; auto | reflexivity].
  - exact H.
Defined.
